(** * docs/xhive/misc.py: the hivestatus role of the eHive documentation

    A shallow embedding of the Sphinx extension [docs/xhive/misc.py] and
    the properties of its colour table, its role parser and its two
    pairs of rendering callbacks. *)

From Stdlib Require Import ZArith NArith String Ascii Lia.
From stdpp Require Import base option list gmap.

Open Scope Z_scope.

(** ** Python values *)

(** A Python [str] is a sequence of code points. *)
Abbreviation pystr := (list N).

(** A literal of the source, code point by code point. *)
Fixpoint str (s : string) : pystr :=
  match s with
  | EmptyString => []
  | String a s' => N_of_ascii a :: str s'
  end.
Arguments str : simpl never.

(** What [json.load] can return.  A float is kept as its text, no
    arithmetic is ever done on one; a dict keeps its items in insertion
    order. *)
#[warnings="-register-all"]
Inductive pyval : Type :=
| PNone
| PBool (b : bool)
| PInt (z : Z)
| PFloat (repr : pystr)
| PStr (s : pystr)
| PList (l : list pyval)
| PDict (d : list (pystr * pyval)).

(** The keys [hive_colours] can receive: a [str], or an [int] ([True] and
    [False] hash and compare as [1] and [0]). *)
Abbreviation pykey := (list N + Z)%type.

Inductive exn : Type :=
| KeyError (k : pystr)
| ValueError
| TypeError
| IndexError
| OSError (path : pystr)
| JSONDecodeError.

Inductive result (A : Type) : Type :=
| Ok (a : A)
| Raise (e : exn).
Arguments Ok {A} a.
Arguments Raise {A} e.

(** ** The process and its surroundings *)

(** What the process does that can be observed from outside the module's
    functions: a file opened for reading, and a read of [hive_colours]. *)
Inductive event : Type :=
| Open (path : pystr)
| GetColour (k : pystr).

(** The module's global [hive_colours] and the history of the process. *)
Record state : Type := mkState {
  hive_colours : gmap pykey pyval;
  log : list event
}.

(** A file that can be read either holds a JSON document or does not
    parse; a path without a file cannot be opened. *)
Inductive file : Type :=
| NotJSON
| JSON (v : pyval).

Record world : Type := mkWorld {
  environ : gmap pystr pystr;
  files : gmap pystr file
}.

(** ** A state and exception monad *)

Definition M (A : Type) : Type := state -> result A * state.

Definition ret {A} (a : A) : M A := fun st => (Ok a, st).
Definition raise {A} (e : exn) : M A := fun st => (Raise e, st).
Definition bind {A B} (m : M A) (k : A -> M B) : M B :=
  fun st =>
    match m st with
    | (Ok a, st') => k a st'
    | (Raise e, st') => (Raise e, st')
    end.
Definition lift {A} (r : result A) : M A := fun st => (r, st).

Notation "x <- m ;; k" := (bind m (fun x => k))
  (at level 100, m at next level, right associativity).
Notation "m ;;; k" := (bind m (fun _ => k))
  (at level 100, right associativity).

(** [for x in items: body(x)] *)
Fixpoint for_ {A} (items : list A) (body : A -> M unit) : M unit :=
  match items with
  | [] => ret tt
  | x :: xs => body x ;;; for_ xs body
  end.

(** ** Built-ins the module calls *)

(** [d[k]] on a dict. *)
Fixpoint dict_get (d : list (pystr * pyval)) (k : pystr) : option pyval :=
  match d with
  | [] => None
  | (k', v) :: d' => if decide (k' = k) then Some v else dict_get d' k
  end.

Definition dict_getitem (d : list (pystr * pyval)) (k : pystr) : result pyval :=
  match dict_get d k with
  | Some v => Ok v
  | None => Raise (KeyError k)
  end.

(** [v[k]] with a [str] subscript: only a dict takes one. *)
Definition getitem (v : pyval) (k : pystr) : result pyval :=
  match v with
  | PDict d => dict_getitem d k
  | _ => Raise TypeError
  end.

(** [l[i]] on a list: a negative index counts from the end. *)
Definition list_getitem (l : list pyval) (i : Z) : result pyval :=
  let n := Z.of_nat (length l) in
  let j := if i <? 0 then i + n else i in
  if (0 <=? j) && (j <? n)
  then match l !! Z.to_nat j with Some v => Ok v | None => Raise IndexError end
  else Raise IndexError.

(** The integer a list accepts as a subscript. *)
Definition as_index (v : pyval) : result Z :=
  match v with
  | PInt z => Ok z
  | PBool b => Ok (if b then 1 else 0)
  | _ => Raise TypeError
  end.

Definition isinstance_dict (v : pyval) : bool :=
  match v with PDict _ => true | _ => false end.

(** [s.index(c)] *)
Fixpoint index (s : pystr) (c : N) : result nat :=
  match s with
  | [] => Raise ValueError
  | x :: s' =>
      if decide (x = c) then Ok O
      else match index s' c with Ok i => Ok (S i) | Raise e => Raise e end
  end.

(** [s[lo:hi]] for indices within the string. *)
Definition slice (s : pystr) (lo hi : nat) : pystr := take (hi - lo) (drop lo s).

(** [str.isspace] on one code point. *)
Definition isspace (c : N) : bool :=
  ((9 <=? c) && (c <=? 13) || (28 <=? c) && (c <=? 32)
   || (c =? 133) || (c =? 160) || (c =? 5760)
   || (8192 <=? c) && (c <=? 8202)
   || (c =? 8232) || (c =? 8233) || (c =? 8239) || (c =? 8287)
   || (c =? 12288))%N.

Fixpoint lstrip (s : pystr) : pystr :=
  match s with
  | c :: s' => if isspace c then lstrip s' else s
  | [] => []
  end.

Definition rstrip (s : pystr) : pystr := reverse (lstrip (reverse s)).

(** [s.strip()] *)
Definition strip (s : pystr) : pystr := rstrip (lstrip s).

(** ** The module *)

(** [class hivestatus(nodes.Element)]: the [Text] children and the
    ['status'] attribute. *)
Record hivestatus : Type := mkNode {
  children : list pystr;
  status : pystr
}.

Definition gt_sign : N := 62.

(** [hivestatus_role]: of its arguments only [text] is used ([inliner],
    [options] and [content] are left out here); the returned pair is the
    list of nodes and the list of system messages. *)
Definition hivestatus_role (name rawtext text : pystr) (lineno : Z)
  : result (list hivestatus * list pystr) :=
  match index text gt_sign with
  | Raise e => Raise e
  | Ok i =>
      let status := slice text 1 i in
      match index text gt_sign with
      | Raise e => Raise e
      | Ok j =>
          let text := strip (drop (j + 1) text) in
          Ok ([mkNode [text] status], [])
      end
  end.

(** *** The colour table *)

Definition set_colour (k : pykey) (c : pyval) : M unit :=
  fun st => (Ok tt, mkState (<[k := c]> (hive_colours st)) (log st)).

(** [os.environ[name]] *)
Definition environ_getitem (w : world) (name : pystr) : M pystr :=
  match environ w !! name with
  | Some v => ret v
  | None => raise (KeyError name)
  end.

(** [open(path, "r")]: the process opens the file, or fails to, with
    [FileNotFoundError], [PermissionError] or another [OSError], when the
    file is missing or cannot be read. *)
Definition open_r (w : world) (path : pystr) : M file :=
  match files w !! path with
  | Some f => fun st => (Ok f, mkState (hive_colours st) (log st ++ [Open path]))
  | None => raise (OSError path)
  end.

(** [json.load(fc)] *)
Definition json_load (fc : file) : M pyval :=
  match fc with
  | JSON v => ret v
  | NotJSON => raise JSONDecodeError
  end.

Definition Colour : pystr := str "Colour".

(** The body of both loops, [if isinstance(h[s], dict): hive_colours[s] =
    h[s]["Colour"]], where [get] is the subscription [h[s]] and [k] the
    key [s] hashes to. *)
Definition load_entry (get : result pyval) (k : pykey) : M unit :=
  v <- lift get ;;
  if isinstance_dict v then
    v' <- lift get ;;
    c <- lift (getitem v' Colour) ;;
    set_colour k c
  else ret tt.

(** [for s in h: ...], by what [h] is: a dict yields its keys, a list its
    items, which it takes as subscripts when they are integers, a [str]
    its characters, which it refuses as subscripts; nothing else can be
    iterated. *)
Definition load_hash (h : pyval) : M unit :=
  match h with
  | PDict d => for_ (map fst d) (fun s => load_entry (dict_getitem d s) (inl s))
  | PList l =>
      for_ l (fun s =>
        match as_index s with
        | Ok i => load_entry (list_getitem l i) (inr i)
        | Raise e => raise e
        end)
  | PStr s => for_ s (fun _ => raise TypeError)
  | _ => raise TypeError
  end.

Definition EHIVE_ROOT_DIR : pystr := str "EHIVE_ROOT_DIR".
Definition sep : pystr := str "/".
Definition Graph : pystr := str "Graph".
Definition Node : pystr := str "Node".
Definition AnalysisStatus : pystr := str "AnalysisStatus".
Definition JobStatus : pystr := str "JobStatus".

(** [conf_content["Graph"]["Node"][name]] *)
Definition node_entry (conf_content : pyval) (name : pystr) : result pyval :=
  match getitem conf_content Graph with
  | Raise e => Raise e
  | Ok g =>
      match getitem g Node with
      | Raise e => Raise e
      | Ok n => getitem n name
      end
  end.

Definition load_colours_if_needed (w : world) : M unit :=
  root <- environ_getitem w EHIVE_ROOT_DIR ;;
  let default_config_file := root ++ sep ++ str "hive_config.json" in
  fc <- open_r w default_config_file ;;
  conf_content <- json_load fc ;;
  as_hash <- lift (node_entry conf_content AnalysisStatus) ;;
  load_hash as_hash ;;;
  js_hash <- lift (node_entry conf_content JobStatus) ;;
  load_hash js_hash.

(** The file a call reads when [EHIVE_ROOT_DIR] is [root]. *)
Definition config_path (root : pystr) : pystr := root ++ sep ++ str "hive_config.json".
Arguments config_path : simpl never.

(** *** The rendering callbacks *)

(** The translator the host passes as [self]: its list of output
    fragments. *)
Record translator : Type := mkTranslator { body : list pystr }.

(** [hive_colours[k]] *)
Definition get_colour (k : pystr) : M pyval :=
  fun st =>
    let st' := mkState (hive_colours st) (log st ++ [GetColour k]) in
    match hive_colours st !! inl k with
    | Some c => (Ok c, st')
    | None => (Raise (KeyError k), st')
    end.

Definition quote : pystr := [34%N].
Definition newline : pystr := [10%N].

Section Rendering.

(** [str(v)] for a [v] that is not a [str], which the [%s] conversion
    calls; Python's own, not this module's. *)
Variable py_str : pyval -> pystr.

(** [fmt % v] for the one [%s] of [fmt], between [pre] and [post]. *)
Definition percent_s (pre post : pystr) (v : pyval) : pystr :=
  pre ++ match v with PStr s => s | _ => py_str v end ++ post.

Definition body_append (self : translator) (s : pystr) : translator :=
  mkTranslator (body self ++ [s]).

Definition visit_hivestatus_html (w : world) (self : translator) (node : hivestatus)
  : M translator :=
  load_colours_if_needed w ;;;
  c <- get_colour (status node) ;;
  ret (body_append self
         (percent_s (str "<span style=" ++ quote ++ str "background-color:")
                    (quote ++ str ">") c)).

Definition depart_hivestatus_html (self : translator) (node : hivestatus) : translator :=
  body_append self (str "</span>").

Definition visit_hivestatus_latex (w : world) (self : translator) (node : hivestatus)
  : M translator :=
  load_colours_if_needed w ;;;
  c <- get_colour (status node) ;;
  ret (body_append self (percent_s (newline ++ str "\colorbox{") (str "}{") c)).

Definition depart_hivestatus_latex (self : translator) (node : hivestatus) : translator :=
  body_append self (str "}").

End Rendering.

(** *** Registration *)

Inductive backend : Type := html | latex.

(** What [setup] registers for [hivestatus] with [app.add_node]: per
    backend, the callback on entry and the callback on exit. *)
Definition callbacks (py_str : pyval -> pystr) (b : backend)
  : (world -> translator -> hivestatus -> M translator)
    * (translator -> hivestatus -> translator) :=
  match b with
  | html => (visit_hivestatus_html py_str, depart_hivestatus_html)
  | latex => (visit_hivestatus_latex py_str, depart_hivestatus_latex)
  end.

(** The opening and the closing markup of a backend for a colour. *)
Definition opening (b : backend) (c : pystr) : pystr :=
  match b with
  | html => str "<span style=" ++ quote ++ str "background-color:" ++ c ++ quote ++ str ">"
  | latex => newline ++ str "\colorbox{" ++ c ++ str "}{"
  end.

(** What the callback on entry appends for the value [v] found in the
    table. *)
Definition opening_of (py_str : pyval -> pystr) (b : backend) (v : pyval) : pystr :=
  match b with
  | html => percent_s py_str (str "<span style=" ++ quote ++ str "background-color:")
                      (quote ++ str ">") v
  | latex => percent_s py_str (newline ++ str "\colorbox{") (str "}{") v
  end.

Definition closing (b : backend) : pystr :=
  match b with
  | html => str "</span>"
  | latex => str "}"
  end.

(** ** A process *)

(** The module as imported: [hive_colours = {}], nothing done yet. *)
Definition initial : state := mkState ∅ [].

Definition record (colour : string) : pyval := PDict [(Colour, PStr (str colour))].

(** A configuration in the shape of [hive_config.json]; [DONE] is in both
    sub-tables, [Font] is a scalar in one and a record in the other. *)
Definition example_conf : pyval :=
  PDict [(Graph, PDict [(Node, PDict [
    (str "Font", PStr (str "Times-Roman"));
    (AnalysisStatus, PDict [
       (str "EMPTY", record "white");
       (str "DONE", record "DeepSkyBlue");
       (str "Font", PStr (str "Courier")) ]);
    (JobStatus, PDict [
       (str "READY", record "green");
       (str "DONE", record "#00ff00");
       (str "Font", record "grey");
       (str "Width", PInt 2) ]) ])])].

Definition example_root : pystr := str "/opt/ensembl-hive".

Definition example_world : world :=
  mkWorld {[ EHIVE_ROOT_DIR := example_root ]}
          {[ config_path example_root := JSON example_conf ]}.

(** The same place after the file has been edited. *)
Definition edited_world : world :=
  mkWorld {[ EHIVE_ROOT_DIR := example_root ]}
          {[ config_path example_root :=
               JSON (PDict [(Graph, PDict [(Node, PDict [
                 (AnalysisStatus, PDict []);
                 (JobStatus, PDict [(str "DONE", record "red")]) ])])]) ]}.

(** ** Failures of the configuration *)

(** [v[k1][k2]...] when every step finds a dict and the key in it. *)
Fixpoint lookup_path (v : pyval) (path : list pystr) : option pyval :=
  match path with
  | [] => Some v
  | k :: path' =>
      match v with
      | PDict d =>
          match dict_get d k with
          | Some v' => lookup_path v' path'
          | None => None
          end
      | _ => None
      end
  end.

Inductive misconfigured (w : world) : Prop :=
| env_unset :
    environ w !! EHIVE_ROOT_DIR = None -> misconfigured w
| file_missing root :
    environ w !! EHIVE_ROOT_DIR = Some root ->
    files w !! config_path root = None -> misconfigured w
| file_not_json root :
    environ w !! EHIVE_ROOT_DIR = Some root ->
    files w !! config_path root = Some NotJSON -> misconfigured w
| keys_absent root conf name :
    environ w !! EHIVE_ROOT_DIR = Some root ->
    files w !! config_path root = Some (JSON conf) ->
    name = AnalysisStatus \/ name = JobStatus ->
    lookup_path conf [Graph; Node; name] = None -> misconfigured w.

(** ** The stores of a run *)

(** What a run of the loader writes: the stores into [hive_colours], in
    order. *)
Abbreviation writes := (list ((list N + Z) * pyval)).

Definition run_writes (ws : writes) (T : gmap pykey pyval) : gmap pykey pyval :=
  foldl (fun T kv => <[kv.1 := kv.2]> T) T ws.

Fixpoint last_write (ws : writes) (k : pykey) : option pyval :=
  match ws with
  | [] => None
  | (k', c) :: ws' =>
      match last_write ws' k with
      | Some c' => Some c'
      | None => if decide (k' = k) then Some c else None
      end
  end.

(** A computation that only stores into the table: what it writes and
    how it ends depend on nothing of the state. *)
Definition writes_only (m : M unit) (ws : writes) (r : result unit) : Prop :=
  forall st, m st = (r, mkState (run_writes ws (hive_colours st)) (log st)).

Definition entry_writes (get : result pyval) (k : pykey) : writes * result unit :=
  match get with
  | Raise e => ([], Raise e)
  | Ok (PDict r) =>
      match dict_get r Colour with
      | Some c => ([(k, c)], Ok tt)
      | None => ([], Raise (KeyError Colour))
      end
  | Ok _ => ([], Ok tt)
  end.

Fixpoint loop_writes {A} (f : A -> writes * result unit) (items : list A)
  : writes * result unit :=
  match items with
  | [] => ([], Ok tt)
  | x :: xs =>
      match f x with
      | (ws, Ok _) => let '(ws', r) := loop_writes f xs in (ws ++ ws', r)
      | (ws, Raise e) => (ws, Raise e)
      end
  end.

Definition hash_writes (h : pyval) : writes * result unit :=
  match h with
  | PDict d => loop_writes (fun s => entry_writes (dict_getitem d s) (inl s)) (map fst d)
  | PList l =>
      loop_writes (fun s =>
        match as_index s with
        | Ok i => entry_writes (list_getitem l i) (inr i)
        | Raise e => ([], Raise e)
        end) l
  | PStr s => loop_writes (fun _ => ([], Raise TypeError)) s
  | _ => ([], Raise TypeError)
  end.

(** The stores of both loops over a parsed configuration. *)
Definition conf_writes (conf_content : pyval) : writes * result unit :=
  match node_entry conf_content AnalysisStatus with
  | Raise e => ([], Raise e)
  | Ok as_hash =>
      match hash_writes as_hash with
      | (ws, Raise e) => (ws, Raise e)
      | (ws, Ok _) =>
          match node_entry conf_content JobStatus with
          | Raise e => (ws, Raise e)
          | Ok js_hash => let '(ws', r) := hash_writes js_hash in (ws ++ ws', r)
          end
      end
  end.

(** One call of the loader seen from outside: the files it opens, the
    stores it makes, how it ends. *)
Definition load_outcome (w : world) : list event * writes * result unit :=
  match environ w !! EHIVE_ROOT_DIR with
  | None => ([], [], Raise (KeyError EHIVE_ROOT_DIR))
  | Some root =>
      match files w !! config_path root with
      | None => ([], [], Raise (OSError (config_path root)))
      | Some NotJSON => ([Open (config_path root)], [], Raise JSONDecodeError)
      | Some (JSON conf) =>
          ([Open (config_path root)], (conf_writes conf).1, (conf_writes conf).2)
      end
  end.

(** ** The configuration file *)

(** The colour a sub-table records for a label: the ["Colour"] of its
    entry when that entry is a dict. *)
Definition colour_of (d : list (pystr * pyval)) (s : pystr) : option pyval :=
  match dict_get d s with
  | Some (PDict r) => dict_get r Colour
  | _ => None
  end.

Definition hash_colour (h : pyval) (s : pystr) : option pyval :=
  match h with PDict d => colour_of d s | _ => None end.

Definition node_colour (conf : pyval) (name s : pystr) : option pyval :=
  match node_entry conf name with
  | Ok h => hash_colour h s
  | Raise _ => None
  end.

(** The colour of a label over both sub-tables, [JobStatus] first. *)
Definition config_colour (conf : pyval) (s : pystr) : option pyval :=
  match node_colour conf JobStatus s with
  | Some c => Some c
  | None => node_colour conf AnalysisStatus s
  end.

(** An entry of a sub-table is a scalar, or a record with a ["Colour"]. *)
Definition record_ok (v : pyval) : bool :=
  match v with
  | PDict r => bool_decide (is_Some (dict_get r Colour))
  | _ => true
  end.

Definition records_ok (d : list (pystr * pyval)) : bool :=
  forallb (fun kv => record_ok kv.2) d.

(** A well-formed configuration: both sub-tables are there, each an
    object whose entries are scalars or records with a ["Colour"]. *)
Definition well_formed (conf : pyval) : bool :=
  match node_entry conf AnalysisStatus, node_entry conf JobStatus with
  | Ok (PDict a), Ok (PDict j) => records_ok a && records_ok j
  | _, _ => false
  end.

(** The table holds every colour the configuration records. *)
Definition populated (conf : pyval) (T : gmap pykey pyval) : Prop :=
  forall s c, config_colour conf s = Some c -> T !! inl s = Some c.

(** ** Several calls *)

(** [n] calls of the loader, one after the other, as a document with [n]
    status badges makes them. *)
Definition calls (n : nat) (w : world) : M unit :=
  for_ (replicate n tt) (fun _ => load_colours_if_needed w).

(** * Properties *)

(** ** The role parser *)

Section Parsing.

Implicit Types (s pre post : pystr) (c : N).

Lemma index_absent s c : c ∉ s -> index s c = Raise ValueError.
Proof.
  induction s as [|x s IH]; intros Hc; simpl; [reflexivity|].
  apply not_elem_of_cons in Hc as [Hx Hs].
  destruct (decide (x = c)) as [->|_]; [contradiction|].
  now rewrite (IH Hs).
Qed.

Lemma index_first pre post c :
  c ∉ pre -> index (pre ++ c :: post) c = Ok (length pre).
Proof.
  induction pre as [|x pre IH]; intros Hc; simpl.
  - now rewrite decide_True.
  - apply not_elem_of_cons in Hc as [Hx Hs].
    rewrite decide_False by congruence.
    now rewrite (IH Hs).
Qed.

Lemma slice_status pre post c :
  slice (pre ++ c :: post) 1 (length pre) = drop 1 pre.
Proof.
  unfold slice. destruct pre as [|x pre]; simpl; [reflexivity|].
  rewrite Nat.sub_0_r, drop_0. apply take_app_length.
Qed.

Lemma lstrip_spec s :
  exists lead, s = lead ++ lstrip s
    /\ Forall (fun c => isspace c = true) lead
    /\ (forall c, head (lstrip s) = Some c -> isspace c = false).
Proof.
  induction s as [|x s (lead & Hs & Hlead & Hhd)]; simpl.
  - exists []. repeat split; [constructor | discriminate].
  - destruct (isspace x) eqn:Hx.
    + exists (x :: lead). repeat split; [simpl; congruence | now constructor | exact Hhd].
    + exists []. repeat split; [constructor|]. simpl. congruence.
Qed.

Lemma rstrip_spec s :
  exists trail, s = rstrip s ++ trail
    /\ Forall (fun c => isspace c = true) trail
    /\ (forall c, last (rstrip s) = Some c -> isspace c = false).
Proof.
  destruct (lstrip_spec (reverse s)) as (lead & Hs & Hlead & Hhd).
  exists (reverse lead). unfold rstrip. repeat split.
  - rewrite <- reverse_app, <- Hs. symmetry. apply reverse_involutive.
  - now apply Forall_reverse.
  - intros c. rewrite last_reverse. apply Hhd.
Qed.

(** [strip] removes whitespace at both ends and nothing else. *)
Lemma strip_spec s :
  exists lead trail, s = lead ++ strip s ++ trail
    /\ Forall (fun c => isspace c = true) lead
    /\ Forall (fun c => isspace c = true) trail
    /\ (forall c, head (strip s) = Some c -> isspace c = false)
    /\ (forall c, last (strip s) = Some c -> isspace c = false).
Proof.
  destruct (lstrip_spec s) as (lead & Hs & Hlead & Hhd).
  destruct (rstrip_spec (lstrip s)) as (trail & Hr & Htrail & Hlast).
  exists lead, trail. unfold strip. repeat split; try assumption.
  - now rewrite <- Hr.
  - intros c Hc. apply Hhd. rewrite Hr.
    destruct (rstrip (lstrip s)); [discriminate | exact Hc].
Qed.

Lemma role_split name rawtext pre post lineno :
  gt_sign ∉ pre ->
  hivestatus_role name rawtext (pre ++ gt_sign :: post) lineno
  = Ok ([mkNode [strip post] (drop 1 pre)], []).
Proof.
  intros Hpre. unfold hivestatus_role.
  rewrite (index_first _ _ _ Hpre), slice_status.
  replace (length pre + 1)%nat with (length (pre ++ [gt_sign]))
    by (rewrite length_app; reflexivity).
  now rewrite (cons_middle gt_sign pre post), app_assoc, drop_app_length.
Qed.

End Parsing.

(** C4: a text with a ['>'] parses to one node; its status is what lies
    between the first character and the first ['>'], and its one child is
    the rest without the whitespace at its two ends.  The text
    [<done>All finished] gives status [done] and label [All finished]. *)
Theorem role_parses name rawtext text lineno :
  gt_sign ∈ text ->
  (exists pre post lead label trail,
     text = pre ++ gt_sign :: post
     /\ (gt_sign ∉ pre)
     /\ post = lead ++ label ++ trail
     /\ Forall (fun c => isspace c = true) lead
     /\ Forall (fun c => isspace c = true) trail
     /\ (forall c, head label = Some c -> isspace c = false)
     /\ (forall c, last label = Some c -> isspace c = false)
     /\ hivestatus_role name rawtext text lineno
        = Ok ([mkNode [label] (drop 1 pre)], []))
  /\ hivestatus_role name rawtext (str "<done>All finished") lineno
     = Ok ([mkNode [str "All finished"] (str "done")], []).
Proof.
  intros Hin. split; [|reflexivity].
  apply list_elem_of_split_l in Hin as (pre & post & -> & Hpre).
  destruct (strip_spec post) as (lead & trail & Hpost & Hlead & Htrail & Hhd & Hlast).
  exists pre, post, lead, (strip post), trail.
  repeat split; try assumption. now apply role_split.
Qed.

Lemma role_parses_witness :
  exists pre post lead label trail,
    str "<READY> in  the queue " = pre ++ gt_sign :: post
    /\ (gt_sign ∉ pre)
    /\ post = lead ++ label ++ trail
    /\ Forall (fun c => isspace c = true) lead
    /\ Forall (fun c => isspace c = true) trail
    /\ (forall c, head label = Some c -> isspace c = false)
    /\ (forall c, last label = Some c -> isspace c = false)
    /\ hivestatus_role (str "hivestatus") [] (str "<READY> in  the queue ") 7
       = Ok ([mkNode [label] (drop 1 pre)], []).
Proof.
  apply (role_parses (str "hivestatus") [] (str "<READY> in  the queue ") 7).
  vm_compute. do 6 apply list_elem_of_further. apply list_elem_of_here.
Defined.

(** C5: a text without ['>'] is refused: [str.index] raises [ValueError],
    which leaves the role function uncaught, and no node is returned. *)
Theorem role_without_gt_raises name rawtext text lineno :
  gt_sign ∉ text ->
  hivestatus_role name rawtext text lineno = Raise ValueError.
Proof.
  intros Hout. unfold hivestatus_role. now rewrite (index_absent _ _ Hout).
Qed.

Lemma role_without_gt_raises_witness :
  hivestatus_role (str "hivestatus") [] (str "<done All finished") 7 = Raise ValueError.
Proof.
  apply role_without_gt_raises.
  intros Hin. vm_compute in Hin.
  repeat (apply elem_of_cons in Hin as [Hin|Hin]; [discriminate|]).
  now apply elem_of_nil in Hin.
Defined.

(** ** The colour table *)

Section Writes.

Implicit Types (ws : writes) (T : gmap pykey pyval) (k : pykey).

Lemma run_writes_app ws ws' T :
  run_writes (ws ++ ws') T = run_writes ws' (run_writes ws T).
Proof. apply foldl_app. Qed.

Lemma run_writes_lookup ws T k :
  run_writes ws T !! k
  = match last_write ws k with Some c => Some c | None => T !! k end.
Proof.
  revert T. induction ws as [|[k' c] ws IH]; intros T; simpl; [reflexivity|].
  unfold run_writes in *. simpl. rewrite IH.
  destruct (last_write ws k); [reflexivity|].
  destruct (decide (k' = k)) as [->|Hne].
  - apply lookup_insert_eq.
  - now apply lookup_insert_ne.
Qed.

Lemma last_write_app ws ws' k :
  last_write (ws ++ ws') k
  = match last_write ws' k with Some c => Some c | None => last_write ws k end.
Proof.
  induction ws as [|[k' c] ws IH]; simpl.
  - now destruct (last_write ws' k).
  - rewrite IH. now destruct (last_write ws' k).
Qed.

(** Running the same stores a second time changes nothing. *)
Lemma run_writes_twice ws T : run_writes ws (run_writes ws T) = run_writes ws T.
Proof.
  apply map_eq. intros k. rewrite !run_writes_lookup.
  now destruct (last_write ws k).
Qed.

Lemma load_entry_writes get k :
  writes_only (load_entry get k) (entry_writes get k).1 (entry_writes get k).2.
Proof.
  intros [T l]. unfold load_entry, entry_writes, bind, lift, getitem, dict_getitem.
  destruct get as [v|e]; [|reflexivity].
  destruct v; try reflexivity. simpl.
  destruct (dict_get d Colour); reflexivity.
Qed.

Lemma for_writes {A} (body : A -> M unit) (f : A -> writes * result unit) items :
  (forall x, writes_only (body x) (f x).1 (f x).2) ->
  writes_only (for_ items body) (loop_writes f items).1 (loop_writes f items).2.
Proof.
  intros Hbody. induction items as [|x xs IH]; intros [T lg]; simpl; [reflexivity|].
  unfold bind. rewrite (Hbody x (mkState T lg)).
  destruct (f x) as [ws [[]|e]]; simpl; [|reflexivity].
  rewrite IH. simpl. destruct (loop_writes f xs) as [ws' r]. simpl.
  now rewrite run_writes_app.
Qed.

Lemma load_hash_writes h :
  writes_only (load_hash h) (hash_writes h).1 (hash_writes h).2.
Proof.
  destruct h as [| | | | s | l | d]; try (intros [T lg]; reflexivity).
  - apply for_writes. intros _ [T lg]. reflexivity.
  - apply for_writes. intros x.
    destruct (as_index x) as [i|e]; [apply load_entry_writes | intros [T lg]; reflexivity].
  - apply for_writes. intros x. apply load_entry_writes.
Qed.

End Writes.

Section Loading.

Implicit Types (w : world) (st : state) (conf h : pyval).
Implicit Types (d : list (pystr * pyval)) (s : pystr).

Lemma load_colours_outcome w st :
  load_colours_if_needed w st
  = ((load_outcome w).2,
     mkState (run_writes (load_outcome w).1.2 (hive_colours st))
             (log st ++ (load_outcome w).1.1)).
Proof.
  destruct st as [T lg].
  unfold load_colours_if_needed, load_outcome, bind, environ_getitem, open_r,
    json_load, ret, raise, lift, config_path.
  destruct (environ w !! EHIVE_ROOT_DIR) as [root|]; cbv zeta;
    [|cbn [fst snd hive_colours log run_writes foldl]; now rewrite app_nil_r].
  destruct (files w !! (root ++ sep ++ str "hive_config.json")) as [[|conf]|];
    cbn [fst snd hive_colours log run_writes foldl];
    [reflexivity | | now rewrite app_nil_r].
  unfold conf_writes.
  destruct (node_entry conf AnalysisStatus) as [a|e]; [|reflexivity].
  rewrite (load_hash_writes a).
  destruct (hash_writes a) as [ws [[]|e]]; cbn [fst snd hive_colours log];
    [|reflexivity].
  destruct (node_entry conf JobStatus) as [j|e]; [|reflexivity].
  rewrite (load_hash_writes j).
  destruct (hash_writes j) as [ws' r]. cbn [fst snd hive_colours log].
  unfold run_writes. now rewrite foldl_app.
Qed.

Lemma dict_get_elem d s v : dict_get d s = Some v -> (s, v) ∈ d.
Proof.
  induction d as [|[k x] d IH]; simpl; [discriminate|].
  destruct (decide (k = s)) as [->|_]; intros H.
  - injection H as ->. apply list_elem_of_here.
  - apply list_elem_of_further, IH, H.
Qed.

Lemma dict_get_keys d s : s ∈ map fst d <-> is_Some (dict_get d s).
Proof.
  induction d as [|[k x] d IH]; simpl.
  - split; [intros H%elem_of_nil; contradiction | intros [? ?]; discriminate].
  - destruct (decide (k = s)) as [->|Hne].
    + split; [eauto | intros _; apply list_elem_of_here].
    + rewrite elem_of_cons, IH. split; [intros [?|?]; congruence | auto].
Qed.

Lemma records_ok_get d s v :
  records_ok d = true -> dict_get d s = Some v -> record_ok v = true.
Proof.
  intros Hok Hget. unfold records_ok in Hok. rewrite forallb_forall in Hok.
  apply (Hok (s, v)). apply list_elem_of_In. now apply dict_get_elem.
Qed.

Lemma last_write_other (ws : writes) (k : pykey) :
  Forall (fun kv => kv.1 <> k) ws -> last_write ws k = None.
Proof.
  induction 1 as [|[k' c] ws Hne _ IH]; simpl; [reflexivity|].
  rewrite IH. now rewrite decide_False.
Qed.

Lemma loop_writes_keys {A} (f : A -> writes * result unit) items (P : pykey -> Prop) :
  (forall x, Forall (fun kv => P kv.1) (f x).1) ->
  Forall (fun kv => P kv.1) (loop_writes f items).1.
Proof.
  intros Hf. induction items as [|x xs IH]; simpl; [constructor|].
  specialize (Hf x). destruct (f x) as [ws [[]|e]]; [|exact Hf].
  destruct (loop_writes f xs) as [ws' r]. apply Forall_app. now split.
Qed.

Lemma entry_writes_keys get (k : pykey) :
  Forall (fun kv => kv.1 = k) (entry_writes get k).1.
Proof.
  unfold entry_writes. destruct get as [[]|]; simpl; try constructor.
  destruct (dict_get d Colour); repeat constructor.
Qed.

(** The stores of one entry of a dict sub-table. *)
Lemma entry_writes_last d s (k : pykey) :
  (entry_writes (dict_getitem d s) (inl s)).2 = Ok tt ->
  last_write (entry_writes (dict_getitem d s) (inl s)).1 k
  = if decide (inl s = k) then colour_of d s else None.
Proof.
  unfold entry_writes, dict_getitem, colour_of.
  destruct (dict_get d s) as [[| | | | | |r]|]; simpl; try discriminate;
    try (intros _; now destruct (decide (inl s = k))).
  destruct (dict_get r Colour) as [c|]; simpl; [|discriminate].
  intros _. now destruct (decide (inl s = k)).
Qed.

Lemma loop_dict_last d ks (k : pykey) :
  (loop_writes (fun s => entry_writes (dict_getitem d s) (inl s)) ks).2 = Ok tt ->
  last_write (loop_writes (fun s => entry_writes (dict_getitem d s) (inl s)) ks).1 k
  = match k with
    | inl s => if decide (s ∈ ks) then colour_of d s else None
    | inr _ => None
    end.
Proof.
  induction ks as [|x ks IH]; simpl.
  - intros _. destruct k as [s|z]; reflexivity.
  - pose proof (entry_writes_last d x k) as Hx.
    destruct (entry_writes (dict_getitem d x) (inl x)) as [ws [[]|e]];
      [|discriminate].
    destruct (loop_writes _ ks) as [ws' r]. simpl in *. intros ->.
    rewrite last_write_app, IH, Hx by reflexivity.
    destruct k as [s|z]; [|now rewrite decide_False by discriminate].
    destruct (decide (s ∈ ks)) as [Hin|Hout].
    + rewrite (decide_True (P := s ∈ x :: ks)) by now apply list_elem_of_further.
      destruct (colour_of d s) eqn:Hc; [reflexivity|].
      destruct (decide (inl x = inl s)) as [[= ->]|_]; [exact Hc | reflexivity].
    + destruct (decide (inl x = inl s)) as [[= ->]|Hne].
      * now rewrite decide_True by apply list_elem_of_here.
      * rewrite decide_False; [reflexivity|].
        intros [->|?]%elem_of_cons; [now apply Hne | contradiction].
Qed.

Lemma loop_dict_ok d ks :
  (forall s, s ∈ ks -> exists v, dict_get d s = Some v /\ record_ok v = true) ->
  (loop_writes (fun s => entry_writes (dict_getitem d s) (inl s)) ks).2 = Ok tt.
Proof.
  induction ks as [|x ks IH]; intros Hks; simpl; [reflexivity|].
  destruct (Hks x) as (v & Hget & Hv); [apply list_elem_of_here|].
  unfold entry_writes at 1, dict_getitem at 1. rewrite Hget.
  assert (Hrest : forall s, s ∈ ks ->
            exists v, dict_get d s = Some v /\ record_ok v = true)
    by (intros s Hs; apply Hks; now apply list_elem_of_further).
  specialize (IH Hrest).
  destruct (loop_writes _ ks) as [ws' r]. simpl in IH. subst r.
  destruct v; try reflexivity. simpl in Hv.
  apply bool_decide_eq_true in Hv as [c Hc]. now rewrite Hc.
Qed.

(** On a normal end, the last store under a [str] key is the colour the
    sub-table records for it. *)
Lemma hash_writes_last h s :
  (hash_writes h).2 = Ok tt ->
  last_write (hash_writes h).1 (inl s) = hash_colour h s.
Proof.
  destruct h as [| | | | x | l | d]; simpl; try discriminate.
  - intros _. apply last_write_other.
    apply (loop_writes_keys _ x (fun k => k <> inl s)). intros _. constructor.
  - intros _. apply last_write_other.
    apply (loop_writes_keys _ l (fun k => k <> inl s)). intros x.
    destruct (as_index x) as [i|e]; [|constructor].
    eapply Forall_impl; [apply entry_writes_keys|].
    simpl. intros kv ->. discriminate.
  - intros Hok. rewrite (loop_dict_last d (map fst d) (inl s) Hok).
    destruct (decide (s ∈ map fst d)) as [_|Hout]; [reflexivity|].
    unfold colour_of. destruct (dict_get d s) eqn:Hget; [|reflexivity].
    exfalso. apply Hout, dict_get_keys. eauto.
Qed.

Lemma conf_writes_last conf s :
  (conf_writes conf).2 = Ok tt ->
  last_write (conf_writes conf).1 (inl s) = config_colour conf s.
Proof.
  unfold conf_writes, config_colour, node_colour.
  destruct (node_entry conf AnalysisStatus) as [a|e]; [|discriminate].
  pose proof (hash_writes_last a s) as Ha.
  destruct (hash_writes a) as [ws [[]|e]]; [|discriminate].
  destruct (node_entry conf JobStatus) as [j|e]; [|discriminate].
  pose proof (hash_writes_last j s) as Hj.
  destruct (hash_writes j) as [ws' r]. simpl in *. intros ->.
  now rewrite last_write_app, Ha, Hj.
Qed.

Lemma records_ok_writes d : records_ok d = true -> (hash_writes (PDict d)).2 = Ok tt.
Proof.
  intros Hok. apply loop_dict_ok. intros s [v Hget]%dict_get_keys.
  exists v. split; [exact Hget | now apply (records_ok_get d s)].
Qed.

Lemma well_formed_writes conf : well_formed conf = true -> (conf_writes conf).2 = Ok tt.
Proof.
  unfold well_formed, conf_writes.
  destruct (node_entry conf AnalysisStatus) as [[| | | | | |a]|]; try discriminate.
  destruct (node_entry conf JobStatus) as [[| | | | | |j]|]; try discriminate.
  intros [Ha Hj]%andb_prop.
  pose proof (records_ok_writes a Ha) as Ha'. pose proof (records_ok_writes j Hj) as Hj'.
  destruct (hash_writes (PDict a)) as [ws r]. simpl in Ha'. subst r.
  now destruct (hash_writes (PDict j)) as [ws' r'].
Qed.

(** A call that returns has read the file the environment names, and made
    the stores of that file's configuration. *)
Lemma load_ok_inv w st st' :
  load_colours_if_needed w st = (Ok tt, st') ->
  exists root conf,
    environ w !! EHIVE_ROOT_DIR = Some root
    /\ files w !! config_path root = Some (JSON conf)
    /\ (conf_writes conf).2 = Ok tt
    /\ st' = mkState (run_writes (conf_writes conf).1 (hive_colours st))
                     (log st ++ [Open (config_path root)]).
Proof.
  rewrite load_colours_outcome. unfold load_outcome.
  destruct (environ w !! EHIVE_ROOT_DIR) as [root|]; [|discriminate].
  destruct (files w !! config_path root) as [[|conf]|] eqn:Hfile; try discriminate.
  simpl. intros [= Hr <-]. exists root, conf. repeat split; assumption.
Qed.

Lemma load_ok w st root conf :
  environ w !! EHIVE_ROOT_DIR = Some root ->
  files w !! config_path root = Some (JSON conf) ->
  (conf_writes conf).2 = Ok tt ->
  load_colours_if_needed w st
  = (Ok tt, mkState (run_writes (conf_writes conf).1 (hive_colours st))
                    (log st ++ [Open (config_path root)])).
Proof.
  intros Henv Hfile Hok. rewrite load_colours_outcome. unfold load_outcome.
  rewrite Henv, Hfile. simpl. now rewrite Hok.
Qed.

(** After a call that returns, a label has the colour the configuration
    records for it, and the entry it had before when it records none. *)
Lemma loaded_lookup conf (T : gmap pykey pyval) s :
  (conf_writes conf).2 = Ok tt ->
  run_writes (conf_writes conf).1 T !! inl s
  = match config_colour conf s with Some c => Some c | None => T !! inl s end.
Proof.
  intros Hok. now rewrite run_writes_lookup, conf_writes_last.
Qed.

Lemma loaded_populated conf (T : gmap pykey pyval) :
  (conf_writes conf).2 = Ok tt -> populated conf (run_writes (conf_writes conf).1 T).
Proof.
  intros Hok s c Hc. now rewrite loaded_lookup, Hc.
Qed.

Lemma well_formed_inv conf :
  well_formed conf = true ->
  exists a j, node_entry conf AnalysisStatus = Ok (PDict a)
    /\ node_entry conf JobStatus = Ok (PDict j)
    /\ records_ok a = true /\ records_ok j = true.
Proof.
  unfold well_formed.
  destruct (node_entry conf AnalysisStatus) as [[| | | | | |a]|]; try discriminate.
  destruct (node_entry conf JobStatus) as [[| | | | | |j]|]; try discriminate.
  intros [Ha Hj]%andb_prop. exists a, j. auto.
Qed.

(** A second call in an unchanged world opens the file again; the table
    it leaves is the one it found. *)
Lemma load_again w st st1 :
  load_colours_if_needed w st = (Ok tt, st1) ->
  exists root,
    environ w !! EHIVE_ROOT_DIR = Some root
    /\ load_colours_if_needed w st1
       = (Ok tt, mkState (hive_colours st1) (log st1 ++ [Open (config_path root)])).
Proof.
  intros (root & conf & Henv & Hfile & Hok & ->)%load_ok_inv.
  exists root. split; [exact Henv|].
  rewrite (load_ok w _ root conf Henv Hfile Hok). simpl.
  now rewrite run_writes_twice.
Qed.

(** No call removes an entry of the table. *)
Lemma load_keeps_entries w st r st' (k : pykey) :
  load_colours_if_needed w st = (r, st') ->
  is_Some (hive_colours st !! k) -> is_Some (hive_colours st' !! k).
Proof.
  rewrite load_colours_outcome. intros [= _ <-] Hk. simpl.
  rewrite run_writes_lookup. destruct (last_write _ k); eauto.
Qed.

Lemma node_entry_absent conf name :
  lookup_path conf [Graph; Node; name] = None ->
  exists e, node_entry conf name = Raise e.
Proof.
  unfold node_entry, getitem, dict_getitem. simpl.
  destruct conf as [| | | | | |d]; try (intros _; eauto; fail).
  destruct (dict_get d Graph) as [g|]; [|eauto].
  destruct g as [| | | | | |g]; try (intros _; eauto; fail).
  destruct (dict_get g Node) as [n|]; [|eauto].
  destruct n as [| | | | | |n]; try (intros _; eauto; fail).
  destruct (dict_get n name); [discriminate | eauto].
Qed.

Lemma conf_writes_absent conf name :
  name = AnalysisStatus \/ name = JobStatus ->
  lookup_path conf [Graph; Node; name] = None ->
  exists e, (conf_writes conf).2 = Raise e.
Proof.
  intros Hname [e He]%node_entry_absent. unfold conf_writes.
  destruct Hname as [-> | ->].
  - rewrite He. eauto.
  - destruct (node_entry conf AnalysisStatus) as [a|e']; [|eauto].
    destruct (hash_writes a) as [ws [[]|e']]; [|eauto].
    rewrite He. eauto.
Qed.

(** The exception of each failure. *)
Lemma load_env_unset w st :
  environ w !! EHIVE_ROOT_DIR = None ->
  load_colours_if_needed w st = (Raise (KeyError EHIVE_ROOT_DIR), st).
Proof.
  intros Henv. rewrite load_colours_outcome. unfold load_outcome. rewrite Henv.
  destruct st as [T lg]. simpl. now rewrite app_nil_r.
Qed.

Lemma load_file_missing w st root :
  environ w !! EHIVE_ROOT_DIR = Some root ->
  files w !! config_path root = None ->
  load_colours_if_needed w st = (Raise (OSError (config_path root)), st).
Proof.
  intros Henv Hfile. rewrite load_colours_outcome. unfold load_outcome.
  rewrite Henv, Hfile. destruct st as [T lg]. simpl. now rewrite app_nil_r.
Qed.

Lemma load_file_not_json w st root :
  environ w !! EHIVE_ROOT_DIR = Some root ->
  files w !! config_path root = Some NotJSON ->
  load_colours_if_needed w st
  = (Raise JSONDecodeError,
     mkState (hive_colours st) (log st ++ [Open (config_path root)])).
Proof.
  intros Henv Hfile. rewrite load_colours_outcome. unfold load_outcome.
  now rewrite Henv, Hfile.
Qed.

Lemma load_analysis_status_absent w st root conf e :
  environ w !! EHIVE_ROOT_DIR = Some root ->
  files w !! config_path root = Some (JSON conf) ->
  node_entry conf AnalysisStatus = Raise e ->
  load_colours_if_needed w st
  = (Raise e, mkState (hive_colours st) (log st ++ [Open (config_path root)])).
Proof.
  intros Henv Hfile He. rewrite load_colours_outcome. unfold load_outcome.
  rewrite Henv, Hfile. unfold conf_writes. now rewrite He.
Qed.

End Loading.

(** [load_colours_if_needed] has no test of whether the table is loaded:
    every call that returns has opened the configuration file. *)
Lemma load_opens_file w st st' :
  load_colours_if_needed w st = (Ok tt, st') ->
  exists root, environ w !! EHIVE_ROOT_DIR = Some root
    /\ log st' = log st ++ [Open (config_path root)].
Proof.
  intros (root & conf & Henv & _ & _ & ->)%load_ok_inv. eauto.
Qed.

(** C1, on the code: the second call of a process opens and parses the
    configuration file again, so a process that calls twice reads twice;
    the table is the same after the second call only while the file is,
    and follows the file once it has been edited. *)
Theorem load_twice_reads_twice :
  exists st1 st2 st3,
    load_colours_if_needed example_world initial = (Ok tt, st1)
    /\ log st1 = [Open (config_path example_root)]
    /\ load_colours_if_needed example_world st1 = (Ok tt, st2)
    /\ log st2 = [Open (config_path example_root); Open (config_path example_root)]
    /\ hive_colours st2 = hive_colours st1
    /\ load_colours_if_needed edited_world st1 = (Ok tt, st3)
    /\ hive_colours st1 !! inl (str "DONE") = Some (PStr (str "#00ff00"))
    /\ hive_colours st3 !! inl (str "DONE") = Some (PStr (str "red")).
Proof.
  eexists _, _, _.
  split; [vm_compute; reflexivity|].
  split; [reflexivity|].
  split; [vm_compute; reflexivity|].
  split; [reflexivity|].
  split; [reflexivity|].
  split; [vm_compute; reflexivity|].
  split; reflexivity.
Qed.

(** C2, as stated, fails on a label of both sub-tables and on a label
    that is a scalar in one of them: [DONE] has a record of colour
    [DeepSkyBlue] in [AnalysisStatus] and is not mapped to it, [Font] is a
    scalar in [AnalysisStatus] and is in the table. *)
Lemma load_not_every_record :
  well_formed example_conf = true
  /\ exists st' a,
      load_colours_if_needed example_world initial = (Ok tt, st')
      /\ node_entry example_conf AnalysisStatus = Ok (PDict a)
      /\ dict_get a (str "DONE") = Some (record "DeepSkyBlue")
      /\ hive_colours st' !! inl (str "DONE") <> Some (PStr (str "DeepSkyBlue"))
      /\ dict_get a (str "Font") = Some (PStr (str "Courier"))
      /\ hive_colours st' !! inl (str "Font") <> None.
Proof.
  split; [reflexivity|].
  eexists _, _.
  split; [vm_compute; reflexivity|].
  split; [reflexivity|].
  split; [reflexivity|].
  split; [vm_compute; discriminate|].
  split; [reflexivity|].
  vm_compute. discriminate.
Qed.

(** C2, amended: loading a well-formed configuration returns; a label
    with a record in [JobStatus] is mapped to that record's colour, a
    label with a record in [AnalysisStatus] and none in [JobStatus] to the
    colour of the [AnalysisStatus] record, and a label with a record in
    neither keeps the entry it had before the call, or none. *)
Theorem load_populates w st root conf a j :
  environ w !! EHIVE_ROOT_DIR = Some root ->
  files w !! config_path root = Some (JSON conf) ->
  well_formed conf = true ->
  node_entry conf AnalysisStatus = Ok (PDict a) ->
  node_entry conf JobStatus = Ok (PDict j) ->
  exists st',
    load_colours_if_needed w st = (Ok tt, st')
    /\ forall s,
        (forall r c, dict_get j s = Some (PDict r) -> dict_get r Colour = Some c ->
                     hive_colours st' !! inl s = Some c)
        /\ (forall r c, dict_get a s = Some (PDict r) -> dict_get r Colour = Some c ->
                        (forall r', dict_get j s <> Some (PDict r')) ->
                        hive_colours st' !! inl s = Some c)
        /\ ((forall r, dict_get a s <> Some (PDict r)) ->
            (forall r, dict_get j s <> Some (PDict r)) ->
            hive_colours st' !! inl s = hive_colours st !! inl s).
Proof.
  intros Henv Hfile Hwf Ha Hj.
  pose proof (well_formed_writes conf Hwf) as Hok.
  eexists. split; [apply (load_ok w st root conf Henv Hfile Hok)|].
  intros s. simpl. rewrite (loaded_lookup conf _ s Hok).
  unfold config_colour, node_colour. rewrite Ha, Hj. simpl. unfold colour_of.
  repeat split.
  - intros r c -> ->. reflexivity.
  - intros r c -> -> Hnone.
    destruct (dict_get j s) as [[| | | | | |r']|]; try reflexivity.
    now destruct (Hnone r').
  - intros Hna Hnj.
    destruct (dict_get j s) as [[| | | | | |r']|]; try (now destruct (Hnj r'));
      destruct (dict_get a s) as [[| | | | | |r]|]; try (now destruct (Hna r));
      reflexivity.
Qed.

Lemma load_populates_witness :
  exists st',
    load_colours_if_needed example_world initial = (Ok tt, st')
    /\ forall s,
        (forall r c,
           dict_get [(str "READY", record "green"); (str "DONE", record "#00ff00");
                     (str "Font", record "grey"); (str "Width", PInt 2)] s
           = Some (PDict r) ->
           dict_get r Colour = Some c -> hive_colours st' !! inl s = Some c)
        /\ (forall r c,
             dict_get [(str "EMPTY", record "white"); (str "DONE", record "DeepSkyBlue");
                       (str "Font", PStr (str "Courier"))] s
             = Some (PDict r) ->
             dict_get r Colour = Some c ->
             (forall r',
                dict_get [(str "READY", record "green"); (str "DONE", record "#00ff00");
                          (str "Font", record "grey"); (str "Width", PInt 2)] s
                <> Some (PDict r')) ->
             hive_colours st' !! inl s = Some c)
        /\ ((forall r,
              dict_get [(str "EMPTY", record "white"); (str "DONE", record "DeepSkyBlue");
                        (str "Font", PStr (str "Courier"))] s
              <> Some (PDict r)) ->
            (forall r,
               dict_get [(str "READY", record "green"); (str "DONE", record "#00ff00");
                         (str "Font", record "grey"); (str "Width", PInt 2)] s
               <> Some (PDict r)) ->
            hive_colours st' !! inl s = hive_colours initial !! inl s).
Proof.
  apply (load_populates example_world initial example_root example_conf);
    reflexivity.
Defined.

(** C3: a label with a record in both sub-tables is mapped to the colour
    of its [JobStatus] record, the one stored second. *)
Theorem job_status_wins w st root conf a j s ra rj c :
  environ w !! EHIVE_ROOT_DIR = Some root ->
  files w !! config_path root = Some (JSON conf) ->
  well_formed conf = true ->
  node_entry conf AnalysisStatus = Ok (PDict a) ->
  node_entry conf JobStatus = Ok (PDict j) ->
  dict_get a s = Some (PDict ra) ->
  dict_get j s = Some (PDict rj) ->
  dict_get rj Colour = Some c ->
  exists st',
    load_colours_if_needed w st = (Ok tt, st')
    /\ hive_colours st' !! inl s = Some c.
Proof.
  intros Henv Hfile Hwf Ha Hj Has Hjs Hc.
  pose proof (well_formed_writes conf Hwf) as Hok.
  eexists. split; [apply (load_ok w st root conf Henv Hfile Hok)|].
  simpl. rewrite (loaded_lookup conf _ s Hok).
  unfold config_colour, node_colour. rewrite Hj. simpl. unfold colour_of.
  now rewrite Hjs, Hc.
Qed.

Lemma job_status_wins_witness :
  exists st',
    load_colours_if_needed example_world initial = (Ok tt, st')
    /\ hive_colours st' !! inl (str "DONE") = Some (PStr (str "#00ff00")).
Proof.
  apply (job_status_wins example_world initial example_root example_conf
           [(str "EMPTY", record "white"); (str "DONE", record "DeepSkyBlue");
            (str "Font", PStr (str "Courier"))]
           [(str "READY", record "green"); (str "DONE", record "#00ff00");
            (str "Font", record "grey"); (str "Width", PInt 2)]
           (str "DONE") [(Colour, PStr (str "DeepSkyBlue"))]
           [(Colour, PStr (str "#00ff00"))]);
    reflexivity.
Defined.

(** C8: with [EHIVE_ROOT_DIR] unset, the file missing, the file not JSON,
    or one of [Graph], [Node], [AnalysisStatus], [JobStatus] absent, the
    call raises an exception that nothing in the module catches; it does
    not return, and it takes no entry out of the table. *)
Theorem load_misconfigured_raises w st :
  misconfigured w ->
  exists e st',
    load_colours_if_needed w st = (Raise e, st')
    /\ forall k : pykey,
        is_Some (hive_colours st !! k) -> is_Some (hive_colours st' !! k).
Proof.
  intros Hw.
  assert (Hraise : exists e st', load_colours_if_needed w st = (Raise e, st')).
  { rewrite load_colours_outcome. unfold load_outcome.
    destruct Hw as [Henv | root Henv Hfile | root Henv Hfile
                   | root conf name Henv Hfile Hname Habs];
      rewrite Henv; try rewrite Hfile; simpl; eauto.
    destruct (conf_writes_absent conf name Hname Habs) as [e ->]. eauto. }
  destruct Hraise as (e & st' & Hload). exists e, st'. split; [exact Hload|].
  intros k. now apply (load_keeps_entries w st (Raise e) st').
Qed.

Lemma load_misconfigured_raises_witness :
  exists e st',
    load_colours_if_needed (mkWorld ∅ ∅) initial = (Raise e, st')
    /\ forall k : pykey,
        is_Some (hive_colours initial !! k) -> is_Some (hive_colours st' !! k).
Proof.
  apply (load_misconfigured_raises (mkWorld ∅ ∅) initial).
  apply env_unset. reflexivity.
Defined.

(** The four failures of the configuration on the example, one at a
    time. *)
Example misconfigured_exceptions :
  (load_colours_if_needed (mkWorld ∅ (files example_world)) initial).1
  = Raise (KeyError EHIVE_ROOT_DIR)
  /\ (load_colours_if_needed (mkWorld (environ example_world) ∅) initial).1
     = Raise (OSError (config_path example_root))
  /\ (load_colours_if_needed
        (mkWorld (environ example_world) {[ config_path example_root := NotJSON ]})
        initial).1
     = Raise JSONDecodeError
  /\ (load_colours_if_needed
        (mkWorld (environ example_world)
           {[ config_path example_root :=
                JSON (PDict [(Graph, PDict [(Node, PDict [
                  (AnalysisStatus, PDict [(str "DONE", record "blue")]) ])])]) ]})
        initial)
     = (Raise (KeyError JobStatus),
        mkState {[ inl (str "DONE") := PStr (str "blue") ]}
                [Open (config_path example_root)]).
Proof. repeat split; vm_compute; reflexivity. Qed.

(** ** Rendering *)

Section Render.

Variable py_str : pyval -> pystr.
Implicit Types (b : backend) (w : world) (st : state) (self : translator).
Implicit Types (node : hivestatus) (c k : pystr).

Lemma opening_of_str b c : opening_of py_str b (PStr c) = opening b c.
Proof.
  destruct b; unfold opening_of, opening, percent_s; now rewrite <- !app_assoc.
Qed.

(** Both callbacks on entry: the loader first, then the lookup in the
    table the loader left. *)
Lemma visit_outcome b w self node st :
  (callbacks py_str b).1 w self node st
  = match load_colours_if_needed w st with
    | (Raise e, st1) => (Raise e, st1)
    | (Ok _, st1) =>
        (match hive_colours st1 !! inl (status node) with
         | Some v => Ok (body_append self (opening_of py_str b v))
         | None => Raise (KeyError (status node))
         end,
         mkState (hive_colours st1) (log st1 ++ [GetColour (status node)]))
    end.
Proof.
  destruct b; simpl; unfold visit_hivestatus_html, visit_hivestatus_latex, bind;
    destruct (load_colours_if_needed w st) as [[[]|e] st1]; try reflexivity;
    unfold get_colour, opening_of;
    destruct (hive_colours st1 !! inl (status node)); reflexivity.
Qed.

(** The loader opens files and reads no colour. *)
Lemma load_log w st r st1 :
  load_colours_if_needed w st = (r, st1) ->
  exists evs, log st1 = log st ++ evs /\ forall k, GetColour k ∉ evs.
Proof.
  rewrite load_colours_outcome. intros [= _ <-]. simpl.
  eexists. split; [reflexivity|]. intros k. unfold load_outcome.
  destruct (environ w !! EHIVE_ROOT_DIR) as [root|]; [|apply not_elem_of_nil].
  destruct (files w !! config_path root) as [[|conf]|]; simpl;
    try apply not_elem_of_nil;
    intros [Hk|Hk%elem_of_nil]%elem_of_cons; try discriminate; contradiction.
Qed.

End Render.

(** In a world that has not changed since a call of the loader returned,
    a colour that is in the table is the one a callback on entry finds. *)
Lemma render_after_load py_str b w self node st0 st c :
  load_colours_if_needed w st0 = (Ok tt, st) ->
  hive_colours st !! inl (status node) = Some (PStr c) ->
  exists st',
    (callbacks py_str b).1 w self node st
    = (Ok (mkTranslator (body self ++ [opening b c])), st').
Proof.
  intros (root & _ & Hagain)%load_again Hc.
  rewrite visit_outcome, Hagain. simpl. rewrite Hc, opening_of_str. eauto.
Qed.

(** C6: when the table the loader leaves maps the node's status to a
    colour, the callback on entry appends the opening markup of its
    backend with that colour in it, [<span style="background-color:c">]
    for HTML and a [colorbox] directive for LaTeX, the callback on exit
    appends [</span>] or a closing brace, and what the host has appended in
    between stays as it is. *)
Theorem render_coloured py_str b w self node st st1 c mid :
  load_colours_if_needed w st = (Ok tt, st1) ->
  hive_colours st1 !! inl (status node) = Some (PStr c) ->
  (exists self1 st2,
     (callbacks py_str b).1 w self node st = (Ok self1, st2)
     /\ body self1 = body self ++ [opening b c]
     /\ body ((callbacks py_str b).2 (mkTranslator (body self1 ++ mid)) node)
        = body self ++ [opening b c] ++ mid ++ [closing b])
  /\ opening html c
     = str "<span style=" ++ quote ++ str "background-color:" ++ c ++ quote ++ str ">"
  /\ opening latex c = newline ++ str "\colorbox{" ++ c ++ str "}{"
  /\ closing html = str "</span>"
  /\ closing latex = str "}".
Proof.
  intros Hload Hc. repeat split.
  rewrite visit_outcome, Hload, Hc, opening_of_str.
  eexists _, _. split; [reflexivity|]. split; [reflexivity|].
  destruct b; simpl; unfold depart_hivestatus_html, depart_hivestatus_latex,
    body_append; simpl; now rewrite <- !app_assoc.
Qed.

Lemma render_coloured_witness :
  (exists self1 st2,
     (callbacks (fun _ => []) html).1 example_world (mkTranslator [str "<p>"])
       (mkNode [str "All finished"] (str "DONE")) initial = (Ok self1, st2)
     /\ body self1 = [str "<p>"] ++ [opening html (str "#00ff00")]
     /\ body ((callbacks (fun _ => []) html).2
                (mkTranslator (body self1 ++ [str "All finished"]))
                (mkNode [str "All finished"] (str "DONE")))
        = [str "<p>"] ++ [opening html (str "#00ff00")] ++ [str "All finished"]
          ++ [closing html])
  /\ opening html (str "#00ff00")
     = str "<span style=" ++ quote ++ str "background-color:" ++ str "#00ff00"
       ++ quote ++ str ">"
  /\ opening latex (str "#00ff00") = newline ++ str "\colorbox{" ++ str "#00ff00" ++ str "}{"
  /\ closing html = str "</span>"
  /\ closing latex = str "}".
Proof.
  apply (render_coloured (fun _ => []) html example_world (mkTranslator [str "<p>"])
           (mkNode [str "All finished"] (str "DONE")) initial
           (load_colours_if_needed example_world initial).2
           (str "#00ff00") [str "All finished"]);
    vm_compute; reflexivity.
Defined.

(** C7: when the table the loader leaves has no entry for the node's
    status, the callback on entry of either backend raises [KeyError] on
    the lookup and appends nothing. *)
Theorem render_unknown_status py_str b w self node st st1 :
  load_colours_if_needed w st = (Ok tt, st1) ->
  hive_colours st1 !! inl (status node) = None ->
  (callbacks py_str b).1 w self node st
  = (Raise (KeyError (status node)),
     mkState (hive_colours st1) (log st1 ++ [GetColour (status node)])).
Proof.
  intros Hload Hnone. now rewrite visit_outcome, Hload, Hnone.
Qed.

Lemma render_unknown_status_witness :
  (callbacks (fun _ => []) latex).1 example_world (mkTranslator [])
    (mkNode [str "gone"] (str "SEMAPHORED")) initial
  = (Raise (KeyError (str "SEMAPHORED")),
     mkState (hive_colours (load_colours_if_needed example_world initial).2)
             (log (load_colours_if_needed example_world initial).2
              ++ [GetColour (str "SEMAPHORED")])).
Proof.
  apply (render_unknown_status (fun _ => []) latex example_world (mkTranslator [])
           (mkNode [str "gone"] (str "SEMAPHORED")) initial
           (load_colours_if_needed example_world initial).2);
    vm_compute; reflexivity.
Defined.

(** C9: in a run of a callback on entry, of either backend, a read of
    [hive_colours] comes after a call of the loader that has returned: the
    file was opened first, and the table that is read holds every colour
    of the configuration in that file. *)
Theorem lookup_after_load py_str b w self node st r st' k :
  (callbacks py_str b).1 w self node st = (r, st') ->
  GetColour k ∈ drop (length (log st)) (log st') ->
  exists st1 root conf,
    load_colours_if_needed w st = (Ok tt, st1)
    /\ environ w !! EHIVE_ROOT_DIR = Some root
    /\ files w !! config_path root = Some (JSON conf)
    /\ populated conf (hive_colours st1)
    /\ hive_colours st' = hive_colours st1
    /\ log st' = log st ++ [Open (config_path root); GetColour k]
    /\ k = status node.
Proof.
  rewrite visit_outcome.
  destruct (load_colours_if_needed w st) as [[[]|e] st1] eqn:Hload.
  - intros [= _ <-]. simpl.
    destruct (load_ok_inv w st st1 Hload) as (root & conf & Henv & Hfile & Hok & ->).
    simpl. rewrite <- app_assoc, drop_app_length. simpl.
    intros Hin. exists (mkState (run_writes (conf_writes conf).1 (hive_colours st))
                          (log st ++ [Open (config_path root)])), root, conf.
    assert (k = status node) as ->.
    { apply elem_of_cons in Hin as [Hin|Hin]; [discriminate|].
      apply elem_of_cons in Hin as [[= ->]|Hin%elem_of_nil]; [reflexivity | contradiction]. }
    repeat split; try assumption; try reflexivity.
    now apply loaded_populated.
  - intros [= _ <-].
    destruct (load_log w st _ _ Hload) as (evs & -> & Hevs).
    rewrite drop_app_length. intros Hin. now destruct (Hevs k).
Qed.

Lemma lookup_after_load_witness :
  exists st1 root conf,
    load_colours_if_needed example_world initial = (Ok tt, st1)
    /\ environ example_world !! EHIVE_ROOT_DIR = Some root
    /\ files example_world !! config_path root = Some (JSON conf)
    /\ populated conf (hive_colours st1)
    /\ hive_colours
         ((callbacks (fun _ => []) html).1 example_world (mkTranslator [])
            (mkNode [str "ok"] (str "READY")) initial).2
       = hive_colours st1
    /\ log ((callbacks (fun _ => []) html).1 example_world (mkTranslator [])
              (mkNode [str "ok"] (str "READY")) initial).2
       = log initial ++ [Open (config_path root); GetColour (str "READY")]
    /\ str "READY" = status (mkNode [str "ok"] (str "READY")).
Proof.
  apply (lookup_after_load (fun _ => []) html example_world (mkTranslator [])
           (mkNode [str "ok"] (str "READY")) initial
           ((callbacks (fun _ => []) html).1 example_world (mkTranslator [])
              (mkNode [str "ok"] (str "READY")) initial).1);
    [now destruct ((callbacks (fun _ => []) html).1 example_world (mkTranslator [])
                     (mkNode [str "ok"] (str "READY")) initial) |].
  vm_compute. apply list_elem_of_further, list_elem_of_here.
Defined.

(** C10: the parser does not look at the first character: whatever it
    is, the status is what lies between it and the first ['>'], which is
    the empty string for [<>label]; that status is the key the callbacks
    on entry read the table with. *)
Theorem role_ignores_first_character name rawtext first pre post lineno :
  gt_sign ∉ first :: pre ->
  hivestatus_role name rawtext (first :: pre ++ gt_sign :: post) lineno
  = Ok ([mkNode [strip post] pre], [])
  /\ hivestatus_role name rawtext (str "<>label") lineno
     = Ok ([mkNode [str "label"] []], [])
  /\ forall py_str b w self st st1,
       load_colours_if_needed w st = (Ok tt, st1) ->
       log ((callbacks py_str b).1 w self (mkNode [strip post] pre) st).2
       = log st1 ++ [GetColour pre].
Proof.
  intros Hout. split; [|split]; [| reflexivity |].
  - apply (role_split name rawtext (first :: pre) post lineno Hout).
  - intros py_str b w self st st1 Hload. now rewrite visit_outcome, Hload.
Qed.

Lemma role_ignores_first_character_witness :
  hivestatus_role (str "hivestatus") [] (str "Xdone>All finished") 7
  = Ok ([mkNode [strip (str "All finished")] (str "done")], [])
  /\ hivestatus_role (str "hivestatus") [] (str "<>label") 7
     = Ok ([mkNode [str "label"] []], [])
  /\ forall py_str b w self st st1,
       load_colours_if_needed w st = (Ok tt, st1) ->
       log ((callbacks py_str b).1 w self
              (mkNode [strip (str "All finished")] (str "done")) st).2
       = log st1 ++ [GetColour (str "done")].
Proof.
  apply (role_ignores_first_character (str "hivestatus") [] 88%N (str "done")
           (str "All finished") 7).
  intros Hin. vm_compute in Hin.
  repeat (apply elem_of_cons in Hin as [Hin|Hin]; [discriminate|]).
  now apply elem_of_nil in Hin.
Defined.

(** * Further properties *)

(** ** Of the role parser *)

Section ParsingMore.

Implicit Types (s pre post label : pystr) (c : N).




Lemma role_ok_split name rawtext text lineno res :
  hivestatus_role name rawtext text lineno = Ok res ->
  exists pre post, text = pre ++ gt_sign :: post /\ (gt_sign ∉ pre)
    /\ res = ([mkNode [strip post] (drop 1 pre)], []).
Proof.
  intros Hres. destruct (decide (gt_sign ∈ text)) as [Hin|Hout].
  - apply list_elem_of_split_l in Hin as (pre & post & -> & Hpre).
    rewrite (role_split name rawtext pre post lineno Hpre) in Hres.
    injection Hres as <-. eauto.
  - unfold hivestatus_role in Hres. now rewrite (index_absent _ _ Hout) in Hres.
Qed.

End ParsingMore.



(** X2: whatever the text, a result of the parser is one node and no
    message; the node has one child, which neither starts nor ends with
    whitespace, and its status holds no ['>']. *)
Theorem role_result_shape name rawtext text lineno res :
  hivestatus_role name rawtext text lineno = Ok res ->
  exists node label,
    res = ([node], [])
    /\ children node = [label]
    /\ (forall c, head label = Some c -> isspace c = false)
    /\ (forall c, last label = Some c -> isspace c = false)
    /\ (gt_sign ∉ status node).
Proof.
  intros (pre & post & -> & Hpre & ->)%role_ok_split.
  destruct (strip_spec post) as (lead & trail & _ & _ & _ & Hhd & Hlast).
  exists (mkNode [strip post] (drop 1 pre)), (strip post). simpl.
  repeat split; try assumption.
  - intros Hin. apply Hpre. destruct pre as [|x pre]; [exact Hin|].
    simpl in Hin. rewrite drop_0 in Hin. now apply list_elem_of_further.
Qed.

Lemma role_result_shape_witness :
  exists node label,
    ([mkNode [str "over"] (str "a<b")], []) = ([node], @nil pystr)
    /\ children node = [label]
    /\ (forall c, head label = Some c -> isspace c = false)
    /\ (forall c, last label = Some c -> isspace c = false)
    /\ (gt_sign ∉ status node).
Proof.
  apply (role_result_shape [] [] (str "<a<b> over") 1). reflexivity.
Defined.

(** X3: the status of a parsed node is empty exactly when the first ['>']
    is the first or the second character of the text; such a text is not
    refused. *)
Theorem role_empty_status name rawtext text lineno node msgs :
  hivestatus_role name rawtext text lineno = Ok ([node], msgs) ->
  status node = [] <-> index text gt_sign = Ok 0%nat \/ index text gt_sign = Ok 1%nat.
Proof.
  intros (pre & post & -> & Hpre & [= -> _])%role_ok_split.
  rewrite (index_first pre post gt_sign Hpre). simpl.
  destruct pre as [|x [|y pre]]; simpl.
  - split; auto.
  - split; auto.
  - split; [discriminate | intros [[=]|[=]]].
Qed.

Lemma role_empty_status_witness :
  status (mkNode [str "label"] []) = []
  <-> index (str ">label") gt_sign = Ok 0%nat \/ index (str ">label") gt_sign = Ok 1%nat.
Proof.
  apply (role_empty_status [] [] (str ">label") 1 (mkNode [str "label"] []) []).
  reflexivity.
Defined.

(** ** Of the loader *)

Section LoadingMore.

Implicit Types (w : world) (st : state) (conf h : pyval).
Implicit Types (d : list (pystr * pyval)) (s : pystr).

(** Once a call has returned, a call in the same world from any state
    with the table it left returns too and leaves that table. *)
Lemma load_stable w st st1 :
  load_colours_if_needed w st = (Ok tt, st1) ->
  exists root,
    environ w !! EHIVE_ROOT_DIR = Some root
    /\ forall lg : list event,
        load_colours_if_needed w (mkState (hive_colours st1) lg)
        = (Ok tt, mkState (hive_colours st1) (lg ++ [Open (config_path root)])).
Proof.
  intros (root & conf & Henv & Hfile & Hok & ->)%load_ok_inv.
  exists root. split; [exact Henv|]. intros lg.
  rewrite (load_ok w _ root conf Henv Hfile Hok). simpl.
  now rewrite run_writes_twice.
Qed.

Lemma calls_stable w (T : gmap pykey pyval) root n :
  (forall lg : list event,
     load_colours_if_needed w (mkState T lg)
     = (Ok tt, mkState T (lg ++ [Open (config_path root)]))) ->
  forall lg : list event,
    calls n w (mkState T lg)
    = (Ok tt, mkState T (lg ++ replicate n (Open (config_path root)))).
Proof.
  intros Hload. unfold calls.
  induction n as [|n IH]; intros lg; simpl.
  - now rewrite app_nil_r.
  - unfold bind. rewrite Hload, IH. now rewrite <- app_assoc.
Qed.

Lemma loop_writes_all {A} (f : A -> writes * result unit) items
    (Q : pykey * pyval -> Prop) :
  (forall x, Forall Q (f x).1) -> Forall Q (loop_writes f items).1.
Proof.
  intros Hf. induction items as [|x xs IH]; simpl; [constructor|].
  specialize (Hf x). destruct (f x) as [ws [[]|e]]; [|exact Hf].
  destruct (loop_writes f xs) as [ws' r]. apply Forall_app. now split.
Qed.

Lemma last_write_elem (ws : writes) (k : pykey) v :
  last_write ws k = Some v -> (k, v) ∈ ws.
Proof.
  induction ws as [|[k' c] ws IH]; simpl; [discriminate|].
  destruct (last_write ws k) as [c'|].
  - intros [= <-]. now apply list_elem_of_further, IH.
  - destruct (decide (k' = k)) as [->|_]; [|discriminate].
    intros [= <-]. apply list_elem_of_here.
Qed.

(** Every store of a sub-table under a label is the colour the sub-table
    records for that label. *)
Lemma hash_writes_recorded h :
  Forall (fun kv => forall s, kv.1 = inl s -> hash_colour h s = Some kv.2)
         (hash_writes h).1.
Proof.
  destruct h as [| | | | x | l | d]; simpl; try constructor.
  - apply loop_writes_all. intros _. constructor.
  - apply loop_writes_all. intros x.
    destruct (as_index x) as [i|e]; [|constructor].
    eapply Forall_impl; [apply entry_writes_keys|].
    simpl. intros kv -> s. discriminate.
  - apply loop_writes_all. intros x.
    unfold entry_writes, dict_getitem, colour_of.
    destruct (dict_get d x) as [[| | | | | |r]|] eqn:Hx; simpl; try constructor.
    destruct (dict_get r Colour) as [c|] eqn:Hc; simpl; repeat constructor.
    simpl. intros s [= <-]. now rewrite Hx.
Qed.

Lemma conf_writes_recorded conf :
  Forall (fun kv => forall s, kv.1 = inl s ->
            node_colour conf AnalysisStatus s = Some kv.2
            \/ node_colour conf JobStatus s = Some kv.2)
         (conf_writes conf).1.
Proof.
  unfold conf_writes, node_colour.
  destruct (node_entry conf AnalysisStatus) as [a|e]; [|constructor].
  pose proof (hash_writes_recorded a) as Ha.
  assert (Ha' : Forall (fun kv => forall s, kv.1 = inl s ->
                  hash_colour a s = Some kv.2
                  \/ match node_entry conf JobStatus with
                     | Ok h => hash_colour h s
                     | Raise _ => None
                     end = Some kv.2) (hash_writes a).1)
    by (eapply Forall_impl; [exact Ha | simpl; auto]).
  destruct (hash_writes a) as [ws [[]|e]]; [|exact Ha'].
  destruct (node_entry conf JobStatus) as [j|e]; [|exact Ha'].
  pose proof (hash_writes_recorded j) as Hj.
  destruct (hash_writes j) as [ws' r]. simpl in *.
  apply Forall_app. split; [exact Ha'|].
  eapply Forall_impl; [exact Hj | simpl; auto].
Qed.

(** How the loop over a dict ends: normally when every record has a
    ["Colour"], with [KeyError] on ["Colour"] otherwise. *)
Lemma loop_dict_result d ks :
  (forall s, s ∈ ks -> is_Some (dict_get d s)) ->
  ((loop_writes (fun s => entry_writes (dict_getitem d s) (inl s)) ks).2 = Ok tt
   /\ forall s r, s ∈ ks -> dict_get d s = Some (PDict r) ->
                  is_Some (dict_get r Colour))
  \/ ((loop_writes (fun s => entry_writes (dict_getitem d s) (inl s)) ks).2
      = Raise (KeyError Colour)
      /\ exists s r, s ∈ ks /\ dict_get d s = Some (PDict r)
                     /\ dict_get r Colour = None).
Proof.
  induction ks as [|x ks IH]; intros Hks; simpl.
  - left. split; [reflexivity|]. intros s r Hs. now apply elem_of_nil in Hs.
  - destruct (Hks x) as [v Hx]; [apply list_elem_of_here|].
    assert (Hrest : forall s, s ∈ ks -> is_Some (dict_get d s))
      by (intros s Hs; apply Hks; now apply list_elem_of_further).
    specialize (IH Hrest).
    unfold entry_writes at 1 3, dict_getitem at 1 3. rewrite Hx.
    assert (Hcase : (exists r, v = PDict r /\ dict_get r Colour = None)
                    \/ ((forall r, v = PDict r -> is_Some (dict_get r Colour))
                        /\ exists ws, match v with
                                      | PDict r =>
                                          match dict_get r Colour with
                                          | Some c => ([(@inl pystr Z x, c)], Ok tt)
                                          | None => ([], Raise (KeyError Colour))
                                          end
                                      | _ => ([], Ok tt)
                                      end = (ws, Ok tt))).
    { destruct v as [| | | | | |r]; try (right; split; [discriminate | eauto]).
      destruct (dict_get r Colour) as [c|] eqn:Hc; [|left; eauto].
      right. split; [|eauto]. intros r' [= <-]. eauto. }
    destruct Hcase as [(r & -> & Hc) | (Hv & ws & ->)].
    + rewrite Hc. simpl. right. split; [reflexivity|].
      exists x, r. split; [apply list_elem_of_here | auto].
    + destruct (loop_writes _ ks) as [ws' r']. simpl in *.
      destruct IH as [[-> Hall] | [-> (s & r & Hs & Hget & Hc)]].
      * left. split; [reflexivity|].
        intros s r [->|Hs]%elem_of_cons Hget; [|now apply (Hall s r)].
        apply Hv. congruence.
      * right. split; [reflexivity|].
        exists s, r. split; [now apply list_elem_of_further | auto].
Qed.

Lemma hash_dict_result d :
  ((hash_writes (PDict d)).2 = Ok tt
   /\ forall s r, dict_get d s = Some (PDict r) -> is_Some (dict_get r Colour))
  \/ ((hash_writes (PDict d)).2 = Raise (KeyError Colour)
      /\ exists s r, dict_get d s = Some (PDict r) /\ dict_get r Colour = None).
Proof.
  destruct (loop_dict_result d (map fst d)) as [[Hok Hall] | [Herr (s & r & _ & H)]].
  - intros s. apply dict_get_keys.
  - left. split; [exact Hok|]. intros s r Hget. apply (Hall s r); [|exact Hget].
    apply dict_get_keys. eauto.
  - right. split; [exact Herr | eauto].
Qed.

Lemma conf_dicts_result conf a j :
  node_entry conf AnalysisStatus = Ok (PDict a) ->
  node_entry conf JobStatus = Ok (PDict j) ->
  ((conf_writes conf).2 = Ok tt
   /\ (forall s r, dict_get a s = Some (PDict r) -> is_Some (dict_get r Colour))
   /\ (forall s r, dict_get j s = Some (PDict r) -> is_Some (dict_get r Colour)))
  \/ ((conf_writes conf).2 = Raise (KeyError Colour)
      /\ exists d s r, (d = a \/ d = j) /\ dict_get d s = Some (PDict r)
                       /\ dict_get r Colour = None).
Proof.
  intros Ha Hj. unfold conf_writes. rewrite Ha, Hj.
  destruct (hash_dict_result a) as [[Hra Halla] | [Hra (sa & ra & Hsa & Hca)]];
    destruct (hash_writes (PDict a)) as [wsa r1]; simpl in Hra; subst r1.
  - destruct (hash_dict_result j) as [[Hrj Hallj] | [Hrj (sj & rj & Hsj & Hcj)]];
      destruct (hash_writes (PDict j)) as [wsj r2]; simpl in Hrj; subst r2; simpl.
    + left. auto.
    + right. split; [reflexivity|]. exists j, sj, rj. auto.
  - simpl. right. split; [reflexivity|]. exists a, sa, ra. auto.
Qed.

Lemma hash_writes_not_dict h s :
  isinstance_dict h = false -> last_write (hash_writes h).1 (inl s) = None.
Proof.
  intros Hh. destruct (last_write (hash_writes h).1 (inl s)) as [v|] eqn:Hlast;
    [|reflexivity].
  apply last_write_elem in Hlast.
  pose proof (hash_writes_recorded h) as Hrec.
  rewrite Forall_forall in Hrec. specialize (Hrec _ Hlast s eq_refl).
  destruct h; try discriminate.
Qed.

Lemma misconfigured_outcome w :
  misconfigured w -> exists e, (load_outcome w).2 = Raise e.
Proof.
  unfold load_outcome.
  intros [Henv | root Henv Hfile | root Henv Hfile
         | root conf name Henv Hfile Hname Habs];
    rewrite Henv; try rewrite Hfile; simpl; eauto.
  apply (conf_writes_absent conf name Hname Habs).
Qed.

End LoadingMore.

(** X4: after a call that has returned, [n] more calls in the same world
    all return, open the configuration file [n] more times, and leave the
    table as the first call left it. *)
Theorem calls_open_each_time w st st1 n :
  load_colours_if_needed w st = (Ok tt, st1) ->
  exists root,
    environ w !! EHIVE_ROOT_DIR = Some root
    /\ calls n w st1
       = (Ok tt, mkState (hive_colours st1)
                         (log st1 ++ replicate n (Open (config_path root)))).
Proof.
  intros (root & Henv & Hagain)%load_stable.
  exists root. split; [exact Henv|].
  destruct st1 as [T lg]. now apply calls_stable.
Qed.

Lemma calls_open_each_time_witness :
  exists root,
    environ example_world !! EHIVE_ROOT_DIR = Some root
    /\ calls 3 example_world (load_colours_if_needed example_world initial).2
       = (Ok tt,
          mkState (hive_colours (load_colours_if_needed example_world initial).2)
                  (log (load_colours_if_needed example_world initial).2
                   ++ replicate 3 (Open (config_path root)))).
Proof.
  apply (calls_open_each_time example_world initial
           (load_colours_if_needed example_world initial).2 3).
  vm_compute. reflexivity.
Defined.

(** X5: no call of the loader and no callback on entry takes a key out of
    the table, whether it returns or raises. *)
Theorem table_only_grows py_str b w self node st :
  dom (hive_colours st) ⊆@{gset pykey} dom (hive_colours (load_colours_if_needed w st).2)
  /\ dom (hive_colours st)
     ⊆@{gset pykey} dom (hive_colours ((callbacks py_str b).1 w self node st).2).
Proof.
  assert (Hload : dom (hive_colours st)
            ⊆@{gset pykey} dom (hive_colours (load_colours_if_needed w st).2)).
  { intros k Hk%elem_of_dom. apply elem_of_dom.
    destruct (load_colours_if_needed w st) as [r st'] eqn:Hst.
    now apply (load_keeps_entries w st r st'). }
  split; [exact Hload|].
  rewrite visit_outcome.
  destruct (load_colours_if_needed w st) as [[[]|e] st1]; exact Hload.
Qed.

(** X6: whatever a call of the loader leaves in the table under a label,
    when it returns and when it raises, was there before the call or is
    the ["Colour"] of a record for that label in one of the two sub-tables
    of the file the call has read. *)
Theorem stored_colours_come_from_file w st r st' s v :
  load_colours_if_needed w st = (r, st') ->
  hive_colours st' !! inl s = Some v ->
  hive_colours st !! inl s = Some v
  \/ exists root conf,
       environ w !! EHIVE_ROOT_DIR = Some root
       /\ files w !! config_path root = Some (JSON conf)
       /\ (node_colour conf AnalysisStatus s = Some v
           \/ node_colour conf JobStatus s = Some v).
Proof.
  rewrite load_colours_outcome. intros [= _ <-]. simpl.
  rewrite run_writes_lookup.
  destruct (last_write _ (inl s)) as [c|] eqn:Hlast; [|auto].
  intros [= ->]. right. apply last_write_elem in Hlast.
  unfold load_outcome in Hlast.
  destruct (environ w !! EHIVE_ROOT_DIR) as [root|];
    [|now apply elem_of_nil in Hlast].
  destruct (files w !! config_path root) as [[|conf]|] eqn:Hfile;
    try (now apply elem_of_nil in Hlast).
  simpl in Hlast. exists root, conf. repeat split; try assumption.
  pose proof (conf_writes_recorded conf) as Hrec.
  rewrite Forall_forall in Hrec. apply (Hrec _ Hlast s eq_refl).
Qed.

Lemma stored_colours_come_from_file_witness :
  hive_colours initial !! inl (str "READY") = Some (PStr (str "green"))
  \/ exists root conf,
       environ example_world !! EHIVE_ROOT_DIR = Some root
       /\ files example_world !! config_path root = Some (JSON conf)
       /\ (node_colour conf AnalysisStatus (str "READY") = Some (PStr (str "green"))
           \/ node_colour conf JobStatus (str "READY") = Some (PStr (str "green"))).
Proof.
  apply (stored_colours_come_from_file example_world initial (Ok tt)
           (load_colours_if_needed example_world initial).2);
    vm_compute; reflexivity.
Defined.

(** X7: the loader is not all or nothing: when the [AnalysisStatus] loop
    has run and the [JobStatus] sub-table cannot be fetched, the call
    raises with the colours of [AnalysisStatus] already in the table. *)
Theorem load_not_atomic w st root conf a e :
  environ w !! EHIVE_ROOT_DIR = Some root ->
  files w !! config_path root = Some (JSON conf) ->
  node_entry conf AnalysisStatus = Ok (PDict a) ->
  records_ok a = true ->
  node_entry conf JobStatus = Raise e ->
  exists st',
    load_colours_if_needed w st = (Raise e, st')
    /\ forall s r c, dict_get a s = Some (PDict r) -> dict_get r Colour = Some c ->
                     hive_colours st' !! inl s = Some c.
Proof.
  intros Henv Hfile Ha Hok Hj.
  rewrite load_colours_outcome. unfold load_outcome. rewrite Henv, Hfile.
  unfold conf_writes. rewrite Ha, Hj.
  pose proof (records_ok_writes a Hok) as Hend.
  pose proof (fun s => hash_writes_last (PDict a) s Hend) as Hlast.
  destruct (hash_writes (PDict a)) as [ws ra]. simpl in Hend. subst ra.
  eexists. split; [reflexivity|].
  intros s r c Hs Hc. simpl. rewrite run_writes_lookup.
  simpl in Hlast. rewrite Hlast. unfold colour_of. now rewrite Hs, Hc.
Qed.

Lemma load_not_atomic_witness :
  exists st',
    load_colours_if_needed
      (mkWorld (environ example_world)
         {[ config_path example_root :=
              JSON (PDict [(Graph, PDict [(Node, PDict [
                (AnalysisStatus, PDict [(str "DONE", record "blue")]) ])])]) ]})
      initial
    = (Raise (KeyError JobStatus), st')
    /\ forall s r c,
        dict_get [(str "DONE", record "blue")] s = Some (PDict r) ->
        dict_get r Colour = Some c ->
        hive_colours st' !! inl s = Some c.
Proof.
  apply (load_not_atomic _ initial example_root
           (PDict [(Graph, PDict [(Node, PDict [
              (AnalysisStatus, PDict [(str "DONE", record "blue")]) ])])]));
    reflexivity.
Defined.

(** X8: with both sub-tables objects, the loader returns exactly when
    every entry of theirs that is an object has a ["Colour"]; when one has
    none, the call raises [KeyError] on ["Colour"]. *)
Theorem load_returns_iff_records_have_colour w st root conf a j :
  environ w !! EHIVE_ROOT_DIR = Some root ->
  files w !! config_path root = Some (JSON conf) ->
  node_entry conf AnalysisStatus = Ok (PDict a) ->
  node_entry conf JobStatus = Ok (PDict j) ->
  ((exists st', load_colours_if_needed w st = (Ok tt, st'))
   <-> (forall s r, dict_get a s = Some (PDict r) -> is_Some (dict_get r Colour))
       /\ (forall s r, dict_get j s = Some (PDict r) -> is_Some (dict_get r Colour)))
  /\ ((exists st', load_colours_if_needed w st = (Ok tt, st'))
      \/ (exists st', load_colours_if_needed w st = (Raise (KeyError Colour), st'))).
Proof.
  intros Henv Hfile Ha Hj.
  rewrite load_colours_outcome. unfold load_outcome. rewrite Henv, Hfile.
  cbn [fst snd].
  destruct (conf_dicts_result conf a j Ha Hj)
    as [(-> & Halla & Hallj) | (-> & d & s & r & Hd & Hs & Hc)].
  - split; [|left; eauto]. split; [auto | eauto].
  - split; [|right; eauto]. split; [intros [st' [=]] | intros [Halla Hallj]].
    destruct Hd as [-> | ->].
    + destruct (Halla s r Hs) as [c Hc']. congruence.
    + destruct (Hallj s r Hs) as [c Hc']. congruence.
Qed.

Lemma load_returns_iff_records_have_colour_witness :
  ((exists st', load_colours_if_needed example_world initial = (Ok tt, st'))
   <-> (forall s r,
          dict_get [(str "EMPTY", record "white"); (str "DONE", record "DeepSkyBlue");
                    (str "Font", PStr (str "Courier"))] s = Some (PDict r) ->
          is_Some (dict_get r Colour))
       /\ (forall s r,
             dict_get [(str "READY", record "green"); (str "DONE", record "#00ff00");
                       (str "Font", record "grey"); (str "Width", PInt 2)] s
             = Some (PDict r) ->
             is_Some (dict_get r Colour)))
  /\ ((exists st', load_colours_if_needed example_world initial = (Ok tt, st'))
      \/ (exists st', load_colours_if_needed example_world initial
                      = (Raise (KeyError Colour), st'))).
Proof.
  apply (load_returns_iff_records_have_colour example_world initial example_root
           example_conf);
    reflexivity.
Defined.

(** X9: the loop over a sub-table that is not an object changes no entry
    under a label, however it ends, and opens no file: only an object can
    give a label a colour. *)
Theorem only_objects_colour_labels h st r st' :
  isinstance_dict h = false ->
  load_hash h st = (r, st') ->
  log st' = log st
  /\ forall s, hive_colours st' !! inl s = hive_colours st !! inl s.
Proof.
  intros Hh. rewrite (load_hash_writes h st). intros [= _ <-]. simpl.
  split; [reflexivity|]. intros s.
  now rewrite run_writes_lookup, hash_writes_not_dict.
Qed.

Lemma only_objects_colour_labels_witness :
  log (load_hash (PList [PInt 1; record "red"; PStr (str "x")]) initial).2 = log initial
  /\ forall s,
      hive_colours (load_hash (PList [PInt 1; record "red"; PStr (str "x")]) initial).2
        !! inl s
      = hive_colours initial !! inl s.
Proof.
  apply (only_objects_colour_labels (PList [PInt 1; record "red"; PStr (str "x")])
           initial
           (load_hash (PList [PInt 1; record "red"; PStr (str "x")]) initial).1);
    [reflexivity|].
  now destruct (load_hash (PList [PInt 1; record "red"; PStr (str "x")]) initial).
Defined.

(** ** Of the callbacks *)

(** X10: a colour in the table does not spare the file: in a misconfigured
    world the callback on entry of either backend raises, reads no colour
    and appends nothing, even for a status the table already maps. *)
Theorem misconfigured_blocks_render py_str b w self node st c :
  misconfigured w ->
  hive_colours st !! inl (status node) = Some c ->
  exists e st',
    (callbacks py_str b).1 w self node st = (Raise e, st')
    /\ load_colours_if_needed w st = (Raise e, st')
    /\ forall k, GetColour k ∉ drop (length (log st)) (log st').
Proof.
  intros [e He]%misconfigured_outcome _.
  rewrite visit_outcome.
  destruct (load_colours_if_needed w st) as [r st'] eqn:Hload.
  pose proof Hload as Hout. rewrite load_colours_outcome, He in Hout.
  injection Hout as <- _.
  exists e, st'. repeat split.
  destruct (load_log w st _ _ Hload) as (evs & -> & Hevs).
  now rewrite drop_app_length.
Qed.

Lemma misconfigured_blocks_render_witness :
  exists e st',
    (callbacks (fun _ => []) html).1 (mkWorld ∅ ∅) (mkTranslator [])
      (mkNode [str "ok"] (str "DONE"))
      (mkState {[ inl (str "DONE") := PStr (str "blue") ]} [])
    = (Raise e, st')
    /\ load_colours_if_needed (mkWorld ∅ ∅)
         (mkState {[ inl (str "DONE") := PStr (str "blue") ]} [])
       = (Raise e, st')
    /\ forall k,
        GetColour k
        ∉ drop (length (log (mkState {[ inl (str "DONE") := PStr (str "blue") ]} [])))
               (log st').
Proof.
  apply (misconfigured_blocks_render (fun _ => []) html (mkWorld ∅ ∅) (mkTranslator [])
           (mkNode [str "ok"] (str "DONE"))
           (mkState {[ inl (str "DONE") := PStr (str "blue") ]} [])
           (PStr (str "blue")));
    [apply env_unset|]; reflexivity.
Defined.



(** ** Of what the loader depends on *)

Section Dependence.

Implicit Types (w : world) (st : state) (conf : pyval).
Implicit Types (d : list (pystr * pyval)) (s : pystr).

Lemma dict_get_perm d d' s :
  NoDup (map fst d) -> d ≡ₚ d' -> dict_get d s = dict_get d' s.
Proof.
  assert (Hin : forall d0, NoDup (map fst d0) ->
            forall v, (s, v) ∈ d0 -> dict_get d0 s = Some v).
  { induction d0 as [|[k x] d0 IH]; simpl; intros Hnd v Hv.
    - now apply elem_of_nil in Hv.
    - apply NoDup_cons in Hnd as [Hk Hnd].
      apply elem_of_cons in Hv as [[= <- <-]|Hv]; [now rewrite decide_True|].
      destruct (decide (k = s)) as [->|_]; [|now apply IH].
      exfalso. apply Hk, list_elem_of_In. apply (in_map fst _ (s, v)).
      now apply list_elem_of_In. }
  intros Hnd Hperm.
  assert (Hnd' : NoDup (map fst d')).
  { change (NoDup (fst <$> d')). rewrite <- Hperm. exact Hnd. }
  destruct (dict_get d s) as [v|] eqn:Hd.
  - symmetry. apply (Hin d' Hnd'). rewrite <- Hperm. now apply dict_get_elem.
  - destruct (dict_get d' s) as [v|] eqn:Hd'; [|reflexivity].
    apply dict_get_elem in Hd'. rewrite <- Hperm in Hd'.
    rewrite (Hin d Hnd v Hd') in Hd. discriminate.
Qed.

Lemma hash_dict_int_keys d (z : Z) :
  last_write (hash_writes (PDict d)).1 (inr z) = None.
Proof.
  apply last_write_other. simpl.
  apply (loop_writes_keys _ (map fst d) (fun k => k <> inr z)). intros x.
  eapply Forall_impl; [apply entry_writes_keys|].
  simpl. intros kv ->. discriminate.
Qed.

Lemma conf_dicts_int_keys conf a j (z : Z) :
  node_entry conf AnalysisStatus = Ok (PDict a) ->
  node_entry conf JobStatus = Ok (PDict j) ->
  last_write (conf_writes conf).1 (inr z) = None.
Proof.
  intros Ha Hj. unfold conf_writes. rewrite Ha, Hj.
  pose proof (hash_dict_int_keys a z) as Hza.
  pose proof (hash_dict_int_keys j z) as Hzj.
  destruct (hash_writes (PDict a)) as [wsa [[]|e]]; [|exact Hza].
  destruct (hash_writes (PDict j)) as [wsj r]. simpl in *.
  now rewrite last_write_app, Hzj.
Qed.

End Dependence.

(** X12: of the configuration the loader reads the two sub-tables and
    nothing else: two files that agree on [Graph.Node.AnalysisStatus] and
    on [Graph.Node.JobStatus] give the same result and the same state. *)
Theorem load_reads_two_subtables w w' st root conf conf' :
  environ w !! EHIVE_ROOT_DIR = Some root ->
  environ w' !! EHIVE_ROOT_DIR = Some root ->
  files w !! config_path root = Some (JSON conf) ->
  files w' !! config_path root = Some (JSON conf') ->
  node_entry conf AnalysisStatus = node_entry conf' AnalysisStatus ->
  node_entry conf JobStatus = node_entry conf' JobStatus ->
  load_colours_if_needed w st = load_colours_if_needed w' st.
Proof.
  intros Henv Henv' Hfile Hfile' Ha Hj.
  rewrite !load_colours_outcome. unfold load_outcome.
  rewrite Henv, Henv', Hfile, Hfile'.
  assert (conf_writes conf = conf_writes conf') as ->; [|reflexivity].
  unfold conf_writes. now rewrite Ha, Hj.
Qed.

Lemma load_reads_two_subtables_witness :
  load_colours_if_needed example_world initial
  = load_colours_if_needed
      (mkWorld (environ example_world)
         {[ config_path example_root :=
              JSON (PDict [(str "Meadow", PNone);
                           (Graph, PDict [(str "Pad", PInt 3);
                                          (Node, PDict [
                (JobStatus, PDict [
                   (str "READY", record "green");
                   (str "DONE", record "#00ff00");
                   (str "Font", record "grey");
                   (str "Width", PInt 2) ]);
                (AnalysisStatus, PDict [
                   (str "EMPTY", record "white");
                   (str "DONE", record "DeepSkyBlue");
                   (str "Font", PStr (str "Courier")) ]) ])])]) ]})
      initial.
Proof.
  apply (load_reads_two_subtables example_world _ initial example_root example_conf
           (PDict [(str "Meadow", PNone);
                   (Graph, PDict [(str "Pad", PInt 3);
                                  (Node, PDict [
                (JobStatus, PDict [
                   (str "READY", record "green");
                   (str "DONE", record "#00ff00");
                   (str "Font", record "grey");
                   (str "Width", PInt 2) ]);
                (AnalysisStatus, PDict [
                   (str "EMPTY", record "white");
                   (str "DONE", record "DeepSkyBlue");
                   (str "Font", PStr (str "Courier")) ]) ])])]));
    reflexivity.
Defined.

(** X13: the order of the entries inside the two sub-tables does not
    matter: when a call returns, a call on a file whose sub-tables hold
    the same entries in another order returns with the same state. *)
Theorem load_ignores_entry_order w w' st st1 root conf conf' a a' j j' :
  environ w !! EHIVE_ROOT_DIR = Some root ->
  environ w' !! EHIVE_ROOT_DIR = Some root ->
  files w !! config_path root = Some (JSON conf) ->
  files w' !! config_path root = Some (JSON conf') ->
  node_entry conf AnalysisStatus = Ok (PDict a) ->
  node_entry conf JobStatus = Ok (PDict j) ->
  node_entry conf' AnalysisStatus = Ok (PDict a') ->
  node_entry conf' JobStatus = Ok (PDict j') ->
  NoDup (map fst a) -> NoDup (map fst j) ->
  a ≡ₚ a' -> j ≡ₚ j' ->
  load_colours_if_needed w st = (Ok tt, st1) ->
  load_colours_if_needed w' st = (Ok tt, st1).
Proof.
  intros Henv Henv' Hfile Hfile' Ha Hj Ha' Hj' Hnda Hndj Hpa Hpj Hload.
  apply load_ok_inv in Hload as (r0 & c0 & Hr0 & Hc0 & Hok & ->).
  assert (r0 = root) as -> by congruence.
  assert (c0 = conf) as -> by congruence.
  assert (Hok' : (conf_writes conf').2 = Ok tt).
  { destruct (conf_dicts_result conf' a' j' Ha' Hj')
      as [(H & _) | (_ & d & s & r & Hd & Hs & Hc)]; [exact H|].
    destruct (conf_dicts_result conf a j Ha Hj)
      as [(_ & Halla & Hallj) | (H & _)]; [|congruence].
    destruct Hd as [-> | ->].
    - rewrite <- (dict_get_perm a a' s Hnda Hpa) in Hs.
      destruct (Halla s r Hs) as [c Hc']. congruence.
    - rewrite <- (dict_get_perm j j' s Hndj Hpj) in Hs.
      destruct (Hallj s r Hs) as [c Hc']. congruence. }
  rewrite (load_ok w' st root conf' Henv' Hfile' Hok'). f_equal. f_equal.
  apply map_eq. intros [s|z]; rewrite !run_writes_lookup.
  - rewrite (conf_writes_last conf' s Hok'), (conf_writes_last conf s Hok).
    unfold config_colour, node_colour. rewrite Ha, Hj, Ha', Hj'. simpl.
    unfold colour_of.
    now rewrite (dict_get_perm a a' s Hnda Hpa), (dict_get_perm j j' s Hndj Hpj).
  - now rewrite (conf_dicts_int_keys conf' a' j' z Ha' Hj'),
      (conf_dicts_int_keys conf a j z Ha Hj).
Qed.

Lemma load_ignores_entry_order_witness :
  load_colours_if_needed
    (mkWorld (environ example_world)
       {[ config_path example_root :=
            JSON (PDict [(Graph, PDict [(Node, PDict [
              (AnalysisStatus, PDict [
                 (str "Font", PStr (str "Courier"));
                 (str "DONE", record "DeepSkyBlue");
                 (str "EMPTY", record "white") ]);
              (JobStatus, PDict [
                 (str "DONE", record "#00ff00");
                 (str "READY", record "green");
                 (str "Font", record "grey");
                 (str "Width", PInt 2) ]) ])])]) ]})
    initial
  = (Ok tt, (load_colours_if_needed example_world initial).2).
Proof.
  apply (load_ignores_entry_order example_world _ initial _ example_root example_conf
           (PDict [(Graph, PDict [(Node, PDict [
              (AnalysisStatus, PDict [
                 (str "Font", PStr (str "Courier"));
                 (str "DONE", record "DeepSkyBlue");
                 (str "EMPTY", record "white") ]);
              (JobStatus, PDict [
                 (str "DONE", record "#00ff00");
                 (str "READY", record "green");
                 (str "Font", record "grey");
                 (str "Width", PInt 2) ]) ])])])
           [(str "EMPTY", record "white"); (str "DONE", record "DeepSkyBlue");
            (str "Font", PStr (str "Courier"))]
           [(str "Font", PStr (str "Courier")); (str "DONE", record "DeepSkyBlue");
            (str "EMPTY", record "white")]
           [(str "READY", record "green"); (str "DONE", record "#00ff00");
            (str "Font", record "grey"); (str "Width", PInt 2)]
           [(str "DONE", record "#00ff00"); (str "READY", record "green");
            (str "Font", record "grey"); (str "Width", PInt 2)]);
    try reflexivity.
  - apply (bool_decide_unpack _). vm_compute. reflexivity.
  - apply (bool_decide_unpack _). vm_compute. reflexivity.
  - etrans; [apply Permutation_swap|].
    etrans; [apply perm_skip, Permutation_swap|]. apply Permutation_swap.
  - apply Permutation_swap.
Defined.

(** X14: the two backends differ in the markup only: on the same node, in
    the same world and state, the callbacks on entry leave the same state
    and end the same way, both with a result or both with the same
    exception. *)
Theorem backends_agree py_str w self node st :
  ((callbacks py_str html).1 w self node st).2
  = ((callbacks py_str latex).1 w self node st).2
  /\ forall e,
      ((callbacks py_str html).1 w self node st).1 = Raise e
      <-> ((callbacks py_str latex).1 w self node st).1 = Raise e.
Proof.
  rewrite !visit_outcome.
  destruct (load_colours_if_needed w st) as [[[]|e0] st1]; simpl;
    [|split; [reflexivity | intros e; reflexivity]].
  split; [reflexivity|]. intros e.
  destruct (hive_colours st1 !! inl (status node)); [|reflexivity].
  split; discriminate.
Qed.
